(** * Symbolic sums and products: a shallow embedding of
      [structure/operations/Addition.ts], [structure/operations/Multiplication.ts]
      and [structure/builder/ShorthandFunctions.ts].

    The expression tree of the library is an inductive type, a JavaScript
    [number] is an integer or [NaN], an exception is a result of the error
    monad [res], and the mutually recursive methods [simplify] and [split] are
    one function bounded by the depth of nested [simplify] calls. *)

From stdpp Require Import base option list strings gmap.
From Stdlib Require Import ZArith Lia.

Local Open Scope Z_scope.

#[local] Set Warnings "-register-all".

(** ** Numbers *)

(** The [number] values of the program: the integers (which double precision
    represents exactly up to 2^53 in magnitude) and [NaN], which is what
    arithmetic on [undefined] produces.  Fractions and infinities are outside
    the model, and the two zeros are one. *)
Inductive number : Type :=
  | Num (z : Z)
  | NaN.

(** [a + b] on numbers, without rounding: the sum of the program when the
    operands and the result are at most 2^53 in magnitude. *)
Definition nadd (a b : number) : number :=
  match a, b with
  | Num x, Num y => Num (x + y)
  | _, _ => NaN
  end.

(** [a * b] on numbers, without rounding: the product of the program when the
    operands and the result are at most 2^53 in magnitude. *)
Definition nmul (a b : number) : number :=
  match a, b with
  | Num x, Num y => Num (x * y)
  | _, _ => NaN
  end.

(** [a === b] on numbers: [NaN] is not equal to anything. *)
Definition strict_eq (a b : number) : bool :=
  match a, b with
  | Num x, Num y => x =? y
  | _, _ => false
  end.

(** Sameness of two numbers as keys and as constants ([NaN] is itself). *)
Definition number_eqb (a b : number) : bool :=
  match a, b with
  | Num x, Num y => x =? y
  | NaN, NaN => true
  | _, _ => false
  end.

(** ** Expressions *)

(** [Expression] with its four concrete classes ([Var] is the class [Variable],
    a reserved word here).  [Value] is the class of the
    constants, [Addition] and [Multiplication] extend [Function] and hold
    [this.args]. *)
Inductive Expr : Type :=
  | Value (value : number)
  | Var (name : string)
  | Addition (args : list Expr)
  | Multiplication (args : list Expr).

(** [Value.ZERO] and [Value.ONE]. *)
Definition ZERO : number := Num 0.
Definition ONE : number := Num 1.

(** [e instanceof Value], [e instanceof Addition], [e instanceof Multiplication]. *)
Definition isValue (e : Expr) : bool :=
  match e with Value _ => true | _ => false end.
Definition isAddition (e : Expr) : bool :=
  match e with Addition _ => true | _ => false end.
Definition isMultiplication (e : Expr) : bool :=
  match e with Multiplication _ => true | _ => false end.

(** [(e as Value).value]: the type assertion is erased when the program runs,
    so on an object that is not a [Value] the property read gives [undefined],
    which the surrounding [+=] or [*=] turns into [NaN]. *)
Definition valueOf (e : Expr) : number :=
  match e with
  | Value v => v
  | _ => NaN
  end.

(** ** Results *)

Inductive error : Type :=
  | ArityError
  | TypeError.

(** The outcome of a call: a returned value, a thrown exception, or
    [OutOfFuel] when the bound on nested [simplify] calls was too small (an
    artefact of the embedding, never a behaviour of the program). *)
Inductive res (A : Type) : Type :=
  | Ok (a : A)
  | Throw (e : error)
  | OutOfFuel.
Arguments Ok {A} a.
Arguments Throw {A} e.
Arguments OutOfFuel {A}.

#[global] Instance res_ret : MRet res := fun A a => Ok a.
#[global] Instance res_bind : MBind res := fun A B f m =>
  match m with
  | Ok a => f a
  | Throw e => Throw e
  | OutOfFuel => OutOfFuel
  end.

(** A [for] loop that pushes [f x] for each [x], left to right. *)
Fixpoint mapM {A B : Type} (f : A → res B) (l : list A) : res (list B) :=
  match l with
  | [] => Ok []
  | x :: l' => y ← f x; ys ← mapM f l'; Ok (y :: ys)
  end.

(** A [for] loop that threads an accumulator, left to right. *)
Fixpoint foldM {A B : Type} (f : B → A → res B) (l : list A) (acc : B) : res B :=
  match l with
  | [] => Ok acc
  | x :: l' => acc' ← f acc x; foldM f l' acc'
  end.

(** ** The operator base class *)

(** Modelled from the spec: the constructor of [Function] (Function.ts is not
    among the sources).  It validates [minArgs ≤ args.length ≤ maxArgs] and
    fails with an ArityError otherwise; no object is produced then. *)
Definition Function_new (mk : list Expr → Expr) (args : list Expr)
    (minArgs maxArgs : nat) : res Expr :=
  if ((length args <? minArgs)%nat || (maxArgs <? length args)%nat)%bool
  then Throw ArityError
  else Ok (mk args).

Definition MAX_ALLOWED_ARGS : nat := 200.

(** [new Addition(args)]: [super("+", args, 2, Addition.MAX_ALLOWED_ARGS, true)]. *)
Definition new_Addition (args : list Expr) : res Expr :=
  Function_new Addition args 2 MAX_ALLOWED_ARGS.

(** [new Multiplication(args)]: [super("*", args, 2, Multiplication.MAX_ALLOWED_ARGS, true)]. *)
Definition new_Multiplication (args : list Expr) : res Expr :=
  Function_new Multiplication args 2 MAX_ALLOWED_ARGS.

(** [multiply(args)] and [plus(args)] of ShorthandFunctions.ts. *)
Definition multiply (args : list Expr) : res Expr := new_Multiplication args.
Definition plus (args : list Expr) : res Expr := new_Addition args.

(** Modelled from the spec: [hasUnknowns(knowns)] of the base contract, true
    if any Variable reachable in the subtree is absent from [knowns]. *)
Fixpoint hasUnknowns (knowns : gmap string number) (this : Expr) : bool :=
  match this with
  | Value _ => false
  | Var name => bool_decide (knowns !! name = None)
  | Addition args => existsb (hasUnknowns knowns) args
  | Multiplication args => existsb (hasUnknowns knowns) args
  end.

(** Modelled from the spec: structural equality, same variant and same value
    or name for the leaves, same operator and element-wise equal children in
    the same order for the operators. *)
Fixpoint equals (a b : Expr) : bool :=
  match a, b with
  | Value x, Value y => number_eqb x y
  | Var x, Var y => String.eqb x y
  | Addition xs, Addition ys =>
      (fix go (xs ys : list Expr) : bool :=
         match xs, ys with
         | [], [] => true
         | x :: xs', y :: ys' => equals x y && go xs' ys'
         | _, _ => false
         end) xs ys
  | Multiplication xs, Multiplication ys =>
      (fix go (xs ys : list Expr) : bool :=
         match xs, ys with
         | [], [] => true
         | x :: xs', y :: ys' => equals x y && go xs' ys'
         | _, _ => false
         end) xs ys
  | _, _ => false
  end.

(** Modelled from the spec: equality of two [HashableArray<Expression>] used
    as keys, element by element and in order. *)
Fixpoint equalsArray (xs ys : list Expr) : bool :=
  match xs, ys with
  | [], [] => true
  | x :: xs', y :: ys' => equals x y && equalsArray xs' ys'
  | _, _ => false
  end.

(** ** The grouping map *)

(** Modelled from the spec: the [HashMap] of @dezzmeister/data-structures,
    keyed by structural equality, with [put], [get], [has], [keys] and [size].
    The spec leaves the order of [keys] open; here the keys come in the order
    of their first [put]. *)
Module HashMap.
Section HashMap.
Context {K V : Type} (eqb : K → K → bool).

Definition t : Type := list (K * V).

Definition empty : t := [].

Fixpoint get (m : t) (k : K) : option V :=
  match m with
  | [] => None
  | (k', v) :: m' => if eqb k' k then Some v else get m' k
  end.

Definition has (m : t) (k : K) : bool :=
  match get m k with Some _ => true | None => false end.

Fixpoint put (m : t) (k : K) (v : V) : t :=
  match m with
  | [] => [(k, v)]
  | (k', v') :: m' => if eqb k' k then (k', v) :: m' else (k', v') :: put m' k v
  end.

Definition keys (m : t) : list K := map fst m.

Definition size (m : t) : nat := length m.
End HashMap.
End HashMap.

(** [groups.get(k) as number]: an absent key gives [undefined], which compares
    and adds like [NaN]. *)
Definition asNumber (o : option number) : number :=
  match o with
  | Some n => n
  | None => NaN
  end.

(** ** The leaves *)

(** Modelled from the spec: [Value.simplify], a constant is its own simplified
    form. *)
Definition Value_simplify (value : number) : res Expr := Ok (Value value).

(** Modelled from the spec: [Variable.simplify], a known variable becomes the
    constant it is bound to, an unknown one stays. *)
Definition Variable_simplify (knowns : gmap string number) (name : string) : res Expr :=
  match knowns !! name with
  | Some v => Ok (Value v)
  | None => Ok (Var name)
  end.

(** ** split *)

(** [SplitFunction]: the residue [expressions] and the payload of [value]. *)
Record SplitFunction : Type := mkSplit {
  expressions : list Expr;
  value : number
}.

Section Methods.
(** The [simplify] that the methods below call on other objects. *)
Variable simp : gmap string number → Expr → res Expr.

(** The loop of [Addition.split] over [this.args]; [self] is the call
    [(arg as Addition).split(knowns)] on a nested Addition. *)
Fixpoint Addition_split_loop (knowns : gmap string number)
    (self : Expr → res SplitFunction) (l : list Expr)
    (numericalResult : number) (symbolicResult : list Expr) : res SplitFunction :=
  match l with
  | [] => Ok (mkSplit symbolicResult numericalResult)
  | arg :: l' =>
      match arg with
      | Value v =>
          Addition_split_loop knowns self l' (nadd numericalResult v) symbolicResult
      | Addition _ =>
          nextArgs ← self arg;
          Addition_split_loop knowns self l'
            (nadd numericalResult (value nextArgs))
            (symbolicResult ++ expressions nextArgs)
      | _ =>
          s ← simp knowns arg;
          Addition_split_loop knowns self l' numericalResult (symbolicResult ++ [s])
      end
  end.

(** The loop of [Multiplication.split] over [this.args]. *)
Fixpoint Multiplication_split_loop (knowns : gmap string number)
    (self : Expr → res SplitFunction) (l : list Expr)
    (numericalResult : number) (symbolicResult : list Expr) : res SplitFunction :=
  match l with
  | [] => Ok (mkSplit symbolicResult numericalResult)
  | arg :: l' =>
      match arg with
      | Value v =>
          Multiplication_split_loop knowns self l' (nmul numericalResult v) symbolicResult
      | Multiplication _ =>
          nextArgs ← self arg;
          Multiplication_split_loop knowns self l'
            (nmul numericalResult (value nextArgs))
            (symbolicResult ++ expressions nextArgs)
      | _ =>
          s ← simp knowns arg;
          Multiplication_split_loop knowns self l' numericalResult (symbolicResult ++ [s])
      end
  end.

(** [Addition.split] and [Multiplication.split], dispatched on the class
    of [this].  The leaves have no such method. *)
Fixpoint split (knowns : gmap string number) (this : Expr) : res SplitFunction :=
  match this with
  | Addition args =>
      Addition_split_loop knowns (split knowns) args (Num 0) []
  | Multiplication args =>
      Multiplication_split_loop knowns (split knowns) args (Num 1) []
  | _ => Throw TypeError
  end.

(** [Addition.split] as the spec words it.  Each child is looked at in order
    and contributes a piece of residue and possibly a number: a Constant its
    value and no residue, a nested Addition the number and the residue of its
    own split, any other child its simplified form and no number. *)
Definition Addition_contribution (knowns : gmap string number)
    (self : Expr → res SplitFunction) (arg : Expr) : res (list Expr * option number) :=
  match arg with
  | Value v => Ok ([], Some v)
  | Addition _ => sub ← self arg; Ok (expressions sub, Some (value sub))
  | _ => s ← simp knowns arg; Ok ([s], None)
  end.

(** One step of the running numeric accumulator. *)
Definition accumulate (acc : number) (c : option number) : number :=
  match c with
  | Some n => nadd acc n
  | None => acc
  end.

(** The total is the running accumulator, started at 0 and taken through the
    contributed numbers from left to right, and the residue is the
    concatenation of the contributed pieces in order. *)
Fixpoint Addition_split_spec (knowns : gmap string number) (this : Expr) : res SplitFunction :=
  match this with
  | Addition args =>
      cs ← mapM (Addition_contribution knowns (Addition_split_spec knowns)) args;
      Ok (mkSplit (concat (map fst cs)) (fold_left accumulate (map snd cs) (Num 0)))
  | _ => Throw TypeError
  end.

(** The counting loop of [Addition.simplify] over the residue. *)
Definition countGroups (exprs : list Expr) : HashMap.t (K:=Expr) (V:=number) :=
  fold_left
    (fun groups arg =>
       if negb (HashMap.has equals groups arg)
       then HashMap.put equals groups arg (Num 1)
       else
         let count := asNumber (HashMap.get equals groups arg) in
         HashMap.put equals groups arg (nadd count (Num 1)))
    exprs HashMap.empty.

(** [Addition.groupLikeTerms], on the arguments of [this]. *)
Definition groupLikeTerms (knowns : gmap string number) (args : list Expr) : res Expr :=
  '(groups, otherExprs) ←
    foldM
      (fun '(groups, otherExprs) arg =>
         if isMultiplication arg then
           splitArgs ← split knowns arg;
           let exprs := expressions splitArgs in
           let value := value splitArgs in
           if negb (HashMap.has equalsArray groups exprs)
           then Ok (HashMap.put equalsArray groups exprs value, otherExprs)
           else
             match HashMap.get equalsArray groups exprs with
             | Some oldValue =>
                 let newValue := nadd value oldValue in
                 Ok (HashMap.put equalsArray groups exprs newValue, otherExprs)
             | None => Throw TypeError
             end
         else Ok (groups, otherExprs ++ [arg]))
      args (HashMap.empty, []);
  exprsOut ←
    foldM
      (fun exprsOut entry =>
         match HashMap.get equalsArray groups entry with
         | Some value =>
             if number_eqb value ZERO then Ok exprsOut
             else if number_eqb value ONE then
               m ← new_Multiplication entry;
               Ok (exprsOut ++ [m])
             else
               m ← new_Multiplication (Value value :: entry);
               Ok (exprsOut ++ [m])
         | None => Throw TypeError
         end)
      (HashMap.keys groups) [];
  new_Addition (exprsOut ++ otherExprs).

(** The full evaluation of [Addition.simplify] (the body of the branch taken
    when [hasUnknowns] reports false). *)
Definition Addition_evaluate (knowns : gmap string number) (simplArgs : list Expr) : res Expr :=
  sum ← foldM (fun sum a => s ← simp knowns a; Ok (nadd sum (valueOf s)))
              simplArgs (Num 0);
  Ok (Value sum).

(** The full evaluation of [Multiplication.simplify]. *)
Definition Multiplication_evaluate (knowns : gmap string number) (simplArgs : list Expr) : res Expr :=
  product ← foldM (fun product a => s ← simp knowns a; Ok (nmul product (valueOf s)))
                  simplArgs (Num 0);
  Ok (Value product).

(** [Addition.simplify], on the arguments of [this]. *)
Definition Addition_simplify (knowns : gmap string number) (args : list Expr) : res Expr :=
  simplArgs ← mapM (fun arg => if isAddition arg then Ok arg else simp knowns arg) args;
  simplAddition ← new_Addition simplArgs;
  if negb (hasUnknowns knowns simplAddition) then
    Addition_evaluate knowns simplArgs
  else
    splitArgs ← split knowns simplAddition;
    let exprs := expressions splitArgs in
    let groups := countGroups exprs in
    groupedArgs ←
      mapM
        (fun expr =>
           let count := asNumber (HashMap.get equals groups expr) in
           if strict_eq count (Num 1) then simp knowns expr
           else
             m ← new_Multiplication [Value count; expr];
             simp knowns m)
        (HashMap.keys groups);
    if (length groupedArgs =? 0)%nat then Ok (Value (value splitArgs))
    else
      let groupedArgs :=
        if negb (strict_eq (value splitArgs) (Num 0))
        then groupedArgs ++ [Value (value splitArgs)]
        else groupedArgs in
      a ← new_Addition groupedArgs;
      match a with
      | Addition args' => groupLikeTerms knowns args'
      | _ => Throw TypeError
      end.

(** [Multiplication.simplify], on the arguments of [this]. *)
Definition Multiplication_simplify (knowns : gmap string number) (args : list Expr) : res Expr :=
  simplArgs ← mapM (fun arg => if isMultiplication arg then Ok arg else simp knowns arg) args;
  simplMult ← new_Multiplication simplArgs;
  if negb (hasUnknowns knowns simplMult) then
    Multiplication_evaluate knowns simplArgs
  else
    splitArgs ← split knowns simplMult;
    let exprs := expressions splitArgs in
    if strict_eq (value splitArgs) (Num 0) then Ok (Value ZERO)
    else
      match exprs with
      | [] => Ok (Value (value splitArgs))
      | [e0] =>
          if strict_eq (value splitArgs) (Num 1) then Ok e0
          else new_Multiplication (exprs ++ [Value (value splitArgs)])
      | _ =>
          if strict_eq (value splitArgs) (Num 1) then new_Multiplication exprs
          else new_Multiplication (exprs ++ [Value (value splitArgs)])
      end.
End Methods.

(** [e.simplify(knowns)], dispatched on the class of [e].  [fuel] bounds the
    depth of nested calls of the two operator methods. *)
Fixpoint simplify (fuel : nat) (knowns : gmap string number) (this : Expr) : res Expr :=
  match this with
  | Value v => Value_simplify v
  | Var name => Variable_simplify knowns name
  | Addition args =>
      match fuel with
      | O => OutOfFuel
      | S fuel' => Addition_simplify (simplify fuel') knowns args
      end
  | Multiplication args =>
      match fuel with
      | O => OutOfFuel
      | S fuel' => Multiplication_simplify (simplify fuel') knowns args
      end
  end.

(** ** derivative *)

Section Derivative.
(** The derivatives of the two leaf classes ([Value.derivative] and
    [Variable.derivative] are not among the sources). *)
Variable Value_derivative : number → string → Expr.
Variable Variable_derivative : string → string → Expr.

(** The inner loop of [Multiplication.derivative]: [operands[j]] for
    [j = 0 .. n-1], where [d] is [this.args[i].derivative(variable)] and
    [argi] is [this.args[i]]. *)
Definition operands (n i : nat) (d argi : Expr) : list Expr :=
  map (fun j => if (j =? i)%nat then d else argi) (seq 0 n).

(** The outer loop of [Multiplication.derivative] from index [i] on, over the
    arguments [l] that remain; [n] is [this.args.length] and [self] the call
    [this.args[i].derivative(variable)]. *)
Fixpoint Multiplication_derivative_loop (self : Expr → res Expr) (n : nat)
    (l : list Expr) (i : nat) : res (list Expr) :=
  match l with
  | [] => Ok []
  | argi :: l' =>
      d ← self argi;
      term ← multiply (operands n i d argi);
      terms ← Multiplication_derivative_loop self n l' (S i);
      Ok (term :: terms)
  end.

(** [e.derivative(variable)], dispatched on the class of [e]. *)
Fixpoint derivative (variable : string) (this : Expr) : res Expr :=
  match this with
  | Value v => Ok (Value_derivative v variable)
  | Var name => Ok (Variable_derivative name variable)
  | Addition args =>
      derivs ← mapM (derivative variable) args;
      new_Addition derivs
  | Multiplication args =>
      derivTerms ←
        Multiplication_derivative_loop (derivative variable) (length args) args 0%nat;
      plus derivTerms
  end.
End Derivative.

(** ** Meaning of an expression *)

(** The number an expression denotes when every variable has a value. *)
Fixpoint eval (env : string → number) (e : Expr) : number :=
  match e with
  | Value v => v
  | Var name => env name
  | Addition args => fold_right (fun a acc => nadd (eval env a) acc) (Num 0) args
  | Multiplication args => fold_right (fun a acc => nmul (eval env a) acc) (Num 1) args
  end.

(** Two expressions are semantically equal when they denote the same number
    under every assignment that agrees with the known bindings. *)
Definition agrees (knowns : gmap string number) (env : string → number) : Prop :=
  ∀ name v, knowns !! name = Some v → env name = v.

Definition semEq (knowns : gmap string number) (a b : Expr) : Prop :=
  ∀ env, agrees knowns env → eval env a = eval env b.

(** ** The children that reach the residue *)

(** The children of an operator that [split] neither folds into the number
    nor flattens: through nested operators of the same class ([same]), every
    descendant that is not a [Value], in order. *)
Fixpoint symbolicChildren_loop (same : Expr → bool) (self : Expr → list Expr)
    (l : list Expr) : list Expr :=
  match l with
  | [] => []
  | arg :: l' =>
      (if isValue arg then []
       else if same arg then self arg
       else [arg]) ++ symbolicChildren_loop same self l'
  end.

Fixpoint Addition_symbolicChildren (this : Expr) : list Expr :=
  match this with
  | Addition args => symbolicChildren_loop isAddition Addition_symbolicChildren args
  | _ => []
  end.

Fixpoint Multiplication_symbolicChildren (this : Expr) : list Expr :=
  match this with
  | Multiplication args =>
      symbolicChildren_loop isMultiplication Multiplication_symbolicChildren args
  | _ => []
  end.

(** An expression that the constructors can build: every operator in it has
    between 2 and [MAX_ALLOWED_ARGS] arguments. *)
Fixpoint wellFormed (e : Expr) : bool :=
  match e with
  | Value _ | Var _ => true
  | Addition args | Multiplication args =>
      (2 <=? length args)%nat && (length args <=? MAX_ALLOWED_ARGS)%nat
      && forallb wellFormed args
  end.

(** The number of operators on the longest path from the root. *)
Fixpoint depth (e : Expr) : nat :=
  match e with
  | Value _ | Var _ => 0%nat
  | Addition args | Multiplication args =>
      S (fold_right (fun a d => Nat.max (depth a) d) 0%nat args)
  end.

(** The depth of the deepest argument. *)
Definition maxDepth (l : list Expr) : nat :=
  fold_right (fun a d => Nat.max (depth a) d) 0%nat l.

(** An expression simplifies to the constant [v] once the bound on nested
    calls is at least [d]. *)
Definition returnsValue (knowns : gmap string number) (d : nat) (e : Expr)
    (v : number) : Prop :=
  ∀ fuel, (d ≤ fuel)%nat → simplify fuel knowns e = Ok (Value v).

(** The number of elements of [l] structurally equal to [e]. *)
Fixpoint occurrences (e : Expr) (l : list Expr) : nat :=
  match l with
  | [] => 0%nat
  | a :: l' => ((if equals a e then 1 else 0) + occurrences e l')%nat
  end.

(** The count that [n] further occurrences leave in the map, from the entry
    [o] they find there. *)
Definition bump (o : option number) (n : nat) : option number :=
  match n with
  | O => o
  | S _ => Some (nadd (match o with Some c => c | None => Num 0 end) (Num (Z.of_nat n)))
  end.

(** One outcome refines another when it is the same, or the bound on nested
    calls ran out before it was reached. *)
Definition le_res {A : Type} (r r' : res A) : Prop := r = OutOfFuel ∨ r = r'.

(** ** The constants that reach the number of a split *)

(** The constants that [split] folds into its number: through nested
    operators of the same class ([same]), every descendant that is a
    [Value], in order. *)
Fixpoint constantChildren_loop (same : Expr → bool) (self : Expr → list number)
    (l : list Expr) : list number :=
  match l with
  | [] => []
  | arg :: l' =>
      (match arg with
       | Value v => [v]
       | _ => if same arg then self arg else []
       end) ++ constantChildren_loop same self l'
  end.

Fixpoint Addition_constantChildren (this : Expr) : list number :=
  match this with
  | Addition args => constantChildren_loop isAddition Addition_constantChildren args
  | _ => []
  end.

Fixpoint Multiplication_constantChildren (this : Expr) : list number :=
  match this with
  | Multiplication args =>
      constantChildren_loop isMultiplication Multiplication_constantChildren args
  | _ => []
  end.

(** The result of a split whose residue is the simplified form of
    [children] and whose number is [total]. *)
Definition flattened (simp : gmap string number → Expr → res Expr)
    (knowns : gmap string number) (children : list Expr) (total : number) :
    res SplitFunction :=
  rs ← mapM (simp knowns) children; Ok (mkSplit rs total).

(** ** What the full evaluation computes *)

(** The number that the evaluation branches compute for an expression
    without unknowns: the bound value of a variable, the sum of the arguments
    from 0 for an Addition, and the product of the arguments from the seed of
    [Multiplication.simplify], which is 0, for a Multiplication. *)
Fixpoint knownValue (knowns : gmap string number) (e : Expr) : number :=
  match e with
  | Value v => v
  | Var name => asNumber (knowns !! name)
  | Addition args => fold_left nadd (map (knownValue knowns) args) (Num 0)
  | Multiplication args => fold_left nmul (map (knownValue knowns) args) (Num 0)
  end.

(** An expression without Multiplication nodes. *)
Fixpoint multiplicationFree (e : Expr) : bool :=
  match e with
  | Value _ | Var _ => true
  | Addition args => forallb multiplicationFree args
  | Multiplication _ => false
  end.

(** A Constant, or a Variable that the bindings do not know. *)
Definition flatUnknown (knowns : gmap string number) (a : Expr) : bool :=
  match a with
  | Value _ => true
  | Var name => bool_decide (knowns !! name = None)
  | _ => false
  end.

(** ** toString *)

Section ToString.
(** The renderings of the two leaf classes ([Value.toString] and
    [Variable.toString] are not among the sources). *)
Variable Value_toString : number → string.
Variable Variable_toString : string → string.

(** The loop of [Addition.toString] and of [Multiplication.toString] from
    index 1 on: [out = out + sep + this.args[i].toString()], where [sep] is
    [" + "] or [" * "] and [self] the call on the argument. *)
Fixpoint toString_loop (sep : string) (self : Expr → res string) (l : list Expr)
    (out : string) : res string :=
  match l with
  | [] => Ok out
  | arg :: l' => s ← self arg; toString_loop sep self l' ((out +:+ sep) +:+ s)
  end.

(** [e.toString()], dispatched on the class of [e].  Reading
    [this.args[0].toString()] on an empty argument list throws a TypeError. *)
Fixpoint toString (this : Expr) : res string :=
  match this with
  | Value v => Ok (Value_toString v)
  | Var name => Ok (Variable_toString name)
  | Addition args =>
      match args with
      | [] => Throw TypeError
      | arg0 :: rest =>
          s0 ← toString arg0;
          out ← toString_loop " + " toString rest ("(" +:+ s0);
          Ok (out +:+ ")")
      end
  | Multiplication args =>
      match args with
      | [] => Throw TypeError
      | arg0 :: rest =>
          s0 ← toString arg0;
          out ← toString_loop " * " toString rest ("(" +:+ s0);
          Ok (out +:+ ")")
      end
  end.
End ToString.

(** ** The range in which the arithmetic is exact *)

(** The largest magnitude up to which every integer is a double:
    [2^53].  Sums and products of integers whose exact result stays within
    it are computed without rounding. *)
Definition MAX_EXACT : Z := 9007199254740992.

(** [|a|] on numbers. *)
Definition nabs (a : number) : number :=
  match a with
  | Num z => Num (Z.abs z)
  | NaN => NaN
  end.

(** [max(1, a)] on numbers. *)
Definition nmax1 (a : number) : number :=
  match a with
  | Num z => Num (Z.max 1 z)
  | NaN => NaN
  end.

(** An integer of magnitude at most [MAX_EXACT]. *)
Definition withinExact (a : number) : bool :=
  match a with
  | Num z => Z.abs z <=? MAX_EXACT
  | NaN => false
  end.

(** The sum of the magnitudes of a list of numbers: a bound on every partial
    sum of them, in any order and grouping. *)
Definition absSum (vs : list number) : number :=
  fold_left nadd (map nabs vs) (Num 0).

(** The product of the magnitudes, each taken as at least 1: a bound on every
    partial product, in any order and grouping. *)
Definition absProduct (vs : list number) : number :=
  fold_left nmul (map (fun v => nmax1 (nabs v)) vs) (Num 1).

(** A bound on every number met when an expression is evaluated with the
    variables valued by [val]: the magnitude of a leaf, the sum of the bounds
    of the arguments of an Addition, the product of the bounds (each at least
    1) of the arguments of a Multiplication. *)
Fixpoint magnitudeOf (val : string → number) (e : Expr) : number :=
  match e with
  | Value v => nabs v
  | Var name => nabs (val name)
  | Addition args => fold_left nadd (map (magnitudeOf val) args) (Num 0)
  | Multiplication args =>
      fold_left nmul (map (fun a => nmax1 (magnitudeOf val a)) args) (Num 1)
  end.

(** The value that the bindings give to a variable. *)
Definition bound (knowns : gmap string number) (name : string) : number :=
  asNumber (knowns !! name).

(** * Properties *)

(** ** Numbers *)

Lemma nadd_assoc (a b c : number) : nadd a (nadd b c) = nadd (nadd a b) c.
Proof. destruct a, b, c; simpl; try reflexivity. f_equal. lia. Qed.

Lemma nadd_0_r (a : number) : nadd a (Num 0) = a.
Proof. destruct a; simpl; [f_equal; lia | reflexivity]. Qed.

Lemma nadd_0_l (a : number) : nadd (Num 0) a = a.
Proof. destruct a; reflexivity. Qed.

(** ** The loops *)

Lemma mapM_Ok_Forall2 {A B : Type} (f : A → res B) (l : list A) (l' : list B) :
  mapM f l = Ok l' → Forall2 (fun x y => f x = Ok y) l l'.
Proof.
  revert l'. induction l as [|x l IH]; intros l' H; simpl in H.
  - injection H as <-. constructor.
  - destruct (f x) as [y| |] eqn:Hx; simpl in H; try discriminate.
    destruct (mapM f l) as [ys| |] eqn:Hl; simpl in H; try discriminate.
    injection H as <-. constructor; [assumption | apply IH; reflexivity].
Qed.

Lemma mapM_Ok_length {A B : Type} (f : A → res B) (l : list A) (l' : list B) :
  mapM f l = Ok l' → length l' = length l.
Proof.
  intros H. apply mapM_Ok_Forall2 in H. symmetry. eapply Forall2_length, H.
Qed.

(** ** Construction *)

Lemma Function_new_Ok (mk : list Expr → Expr) (args : list Expr) (lo hi : nat) :
  (lo ≤ length args ≤ hi)%nat → Function_new mk args lo hi = Ok (mk args).
Proof.
  intros [Hlo Hhi]. unfold Function_new.
  destruct (Nat.ltb_spec (length args) lo); [lia |].
  destruct (Nat.ltb_spec hi (length args)); [lia |]. reflexivity.
Qed.

Lemma Function_new_Throw (mk : list Expr → Expr) (args : list Expr) (lo hi : nat) :
  (length args < lo ∨ hi < length args)%nat →
  Function_new mk args lo hi = Throw ArityError.
Proof.
  intros H. unfold Function_new.
  destruct (Nat.ltb_spec (length args) lo); [reflexivity |].
  destruct (Nat.ltb_spec hi (length args)); [reflexivity | lia].
Qed.

(** C8: constructing an Addition or a Multiplication with 0 or 1 children
    fails with an ArityError and gives no object, with 2 to 200 children it
    gives the node, and with 201 children it fails with an ArityError. *)
Theorem construction_arity (args : list Expr) :
  ((length args < 2)%nat →
     new_Addition args = Throw ArityError ∧
     new_Multiplication args = Throw ArityError) ∧
  ((2 ≤ length args ≤ 200)%nat →
     new_Addition args = Ok (Addition args) ∧
     new_Multiplication args = Ok (Multiplication args)) ∧
  (length args = 201%nat →
     new_Addition args = Throw ArityError ∧
     new_Multiplication args = Throw ArityError).
Proof.
  unfold new_Addition, new_Multiplication, MAX_ALLOWED_ARGS.
  repeat split; intros;
    first [ apply Function_new_Ok; lia | apply Function_new_Throw; lia ].
Qed.

(** The five cases at lists of 0, 1, 2, 200 and 201 constants. *)
Lemma construction_arity_witness :
  (new_Addition [] = Throw ArityError ∧ new_Multiplication [] = Throw ArityError) ∧
  (new_Addition [Value ZERO] = Throw ArityError ∧
   new_Multiplication [Value ZERO] = Throw ArityError) ∧
  (new_Addition [Value ZERO; Value ONE] = Ok (Addition [Value ZERO; Value ONE]) ∧
   new_Multiplication [Value ZERO; Value ONE] = Ok (Multiplication [Value ZERO; Value ONE])) ∧
  (new_Addition (replicate 200 (Value ONE)) = Ok (Addition (replicate 200 (Value ONE))) ∧
   new_Multiplication (replicate 200 (Value ONE)) =
     Ok (Multiplication (replicate 200 (Value ONE)))) ∧
  (new_Addition (replicate 201 (Value ONE)) = Throw ArityError ∧
   new_Multiplication (replicate 201 (Value ONE)) = Throw ArityError).
Proof.
  split; [| split; [| split; [| split]]].
  - apply (proj1 (construction_arity [])). simpl. lia.
  - apply (proj1 (construction_arity [Value ZERO])). simpl. lia.
  - apply (proj1 (proj2 (construction_arity [Value ZERO; Value ONE]))). simpl. lia.
  - apply (proj1 (proj2 (construction_arity (replicate 200 (Value ONE))))).
    rewrite length_replicate. lia.
  - apply (proj2 (proj2 (construction_arity (replicate 201 (Value ONE))))).
    apply length_replicate.
Defined.

(** ** Full numeric reduction *)

Section Constants.
Variable simp : gmap string number → Expr → res Expr.
Variable knowns : gmap string number.
Hypothesis simp_Value : ∀ v, simp knowns (Value v) = Ok (Value v).

Lemma mapM_constants_Addition (vs : list number) :
  mapM (fun arg => if isAddition arg then Ok arg else simp knowns arg) (map Value vs)
  = Ok (map Value vs).
Proof.
  induction vs as [|v vs IH]; simpl; [reflexivity |].
  rewrite simp_Value. simpl. rewrite IH. reflexivity.
Qed.

Lemma mapM_constants_Multiplication (vs : list number) :
  mapM (fun arg => if isMultiplication arg then Ok arg else simp knowns arg) (map Value vs)
  = Ok (map Value vs).
Proof.
  induction vs as [|v vs IH]; simpl; [reflexivity |].
  rewrite simp_Value. simpl. rewrite IH. reflexivity.
Qed.

Lemma hasUnknowns_constants (vs : list number) :
  existsb (hasUnknowns knowns) (map Value vs) = false.
Proof. induction vs; simpl; auto. Qed.

Lemma foldM_constants (op : number → number → number) (vs : list number) (acc : number) :
  foldM (fun acc a => s ← simp knowns a; Ok (op acc (valueOf s))) (map Value vs) acc
  = Ok (fold_left op vs acc).
Proof.
  revert acc. induction vs as [|v vs IH]; intros acc; simpl; [reflexivity |].
  rewrite simp_Value. simpl. apply IH.
Qed.

Lemma Addition_simplify_constants (vs : list number) :
  (2 ≤ length vs ≤ 200)%nat →
  Addition_simplify simp knowns (map Value vs) = Ok (Value (fold_left nadd vs (Num 0))).
Proof.
  intros Hlen. unfold Addition_simplify.
  rewrite mapM_constants_Addition. simpl.
  unfold new_Addition. rewrite Function_new_Ok
    by (rewrite length_map; unfold MAX_ALLOWED_ARGS; lia).
  simpl. rewrite hasUnknowns_constants. simpl.
  unfold Addition_evaluate. rewrite foldM_constants. reflexivity.
Qed.

Lemma Multiplication_simplify_constants (vs : list number) :
  (2 ≤ length vs ≤ 200)%nat →
  Multiplication_simplify simp knowns (map Value vs)
  = Ok (Value (fold_left nmul vs (Num 0))).
Proof.
  intros Hlen. unfold Multiplication_simplify.
  rewrite mapM_constants_Multiplication. simpl.
  unfold new_Multiplication. rewrite Function_new_Ok
    by (rewrite length_map; unfold MAX_ALLOWED_ARGS; lia).
  simpl. rewrite hasUnknowns_constants. simpl.
  unfold Multiplication_evaluate. rewrite foldM_constants. reflexivity.
Qed.
End Constants.

Lemma simplify_Value (fuel : nat) (knowns : gmap string number) (v : number) :
  simplify fuel knowns (Value v) = Ok (Value v).
Proof. destruct fuel; reflexivity. Qed.

(** The sum of constants: [Addition(children).simplify(knowns)] is the
    constant of the sum of the children's values, whatever the bindings. *)
Lemma Addition_constants_sum (fuel : nat) (knowns : gmap string number) (vs : list number) :
  (2 ≤ length vs ≤ 200)%nat →
  simplify (S fuel) knowns (Addition (map Value vs))
  = Ok (Value (fold_left nadd vs (Num 0))).
Proof.
  intros Hlen. simpl. apply Addition_simplify_constants; [| assumption].
  apply simplify_Value.
Qed.

Lemma fold_left_nmul_0 (zs : list Z) :
  fold_left nmul (map Num zs) (Num 0) = Num 0.
Proof. induction zs as [|z zs IH]; simpl; [reflexivity | exact IH]. Qed.

(** The product of integer constants: the accumulator starts at 0, so
    [Multiplication(children).simplify(knowns)] is the constant 0. *)
Lemma Multiplication_constants_zero (fuel : nat) (knowns : gmap string number) (zs : list Z) :
  (2 ≤ length zs ≤ 200)%nat →
  simplify (S fuel) knowns (Multiplication (map Value (map Num zs)))
  = Ok (Value (Num 0)).
Proof.
  intros Hlen. simpl.
  rewrite (Multiplication_simplify_constants (simplify fuel) knowns)
    by (try apply simplify_Value; rewrite length_map; assumption).
  rewrite fold_left_nmul_0. reflexivity.
Qed.

(** C1: on the children [Constant(2)] and [Constant(3)] the Addition
    simplifies to [Constant(5)], their sum, while the Multiplication simplifies
    to [Constant(0)] and not to [Constant(6)], their product. *)
Theorem constants_product_is_zero (fuel : nat) :
  simplify (S fuel) ∅ (Addition [Value (Num 2); Value (Num 3)]) = Ok (Value (Num 5)) ∧
  simplify (S fuel) ∅ (Multiplication [Value (Num 2); Value (Num 3)]) = Ok (Value (Num 0)) ∧
  Value (Num 0) ≠ Value (Num (2 * 3)).
Proof.
  split; [| split].
  - apply (Addition_constants_sum fuel ∅ [Num 2; Num 3]). simpl. lia.
  - apply (Multiplication_constants_zero fuel ∅ [2; 3]). simpl. lia.
  - discriminate.
Qed.

(** ** Sums with an unknown *)

(** C3: [Addition([Variable("x"), Constant(0)]).simplify({})] returns no
    expression.  The total 0 is not appended, the grouped list holds the single
    term [x], and building the Addition of that one child throws an
    ArityError. *)
Theorem additive_identity_throws (fuel : nat) :
  simplify (S fuel) ∅ (Addition [Var "x"; Value (Num 0)]) = Throw ArityError.
Proof. destruct fuel; vm_compute; reflexivity. Qed.

(** With a second unknown the zero is elided and the sum is returned; a total
    other than zero is appended after the grouped terms. *)
Lemma additive_identity_elided (fuel : nat) :
  simplify (S fuel) ∅ (Addition [Var "x"; Value (Num 0); Var "y"])
  = Ok (Addition [Var "x"; Var "y"]) ∧
  simplify (S fuel) ∅ (Addition [Value (Num 2); Var "x"; Value (Num 3)])
  = Ok (Addition [Var "x"; Value (Num 5)]).
Proof. split; destruct fuel; vm_compute; reflexivity. Qed.

(** C4: [Addition([Variable("x"), Variable("x"), Variable("x")]).simplify({})]
    returns no expression.  The three occurrences are grouped into the single
    term [Multiplication([Constant(3), x]).simplify({})], and building the
    Addition of that one child throws an ArityError. *)
Theorem like_terms_throw (fuel : nat) :
  simplify (S (S fuel)) ∅ (Addition [Var "x"; Var "x"; Var "x"]) = Throw ArityError.
Proof. destruct fuel; vm_compute; reflexivity. Qed.

(** With a second term the grouping is visible in the result. *)
Lemma like_terms_grouped (fuel : nat) :
  simplify (S (S fuel)) ∅ (Addition [Var "x"; Var "y"; Var "x"])
  = Ok (Addition [Multiplication [Value (Num 2); Var "x"]; Var "y"]).
Proof. destruct fuel; vm_compute; reflexivity. Qed.

(** Known-binding substitution. *)
Lemma known_binding_substitution (fuel : nat) :
  simplify (S fuel) {[ "x" := Num 4 ]} (Addition [Var "x"; Value (Num 1)])
  = Ok (Value (Num 5)).
Proof. destruct fuel; vm_compute; reflexivity. Qed.

(** ** Idempotence *)

(** C5: for [e = ((x * 0 + 1) * 2) * 3], [e.simplify({})] is the product
    [1 * 6], and simplifying that once more gives [Constant(0)], which is not
    semantically equal to it. *)
Theorem simplify_twice_differs (fuel : nat) :
  let e := Multiplication
             [Multiplication
                [Addition [Multiplication [Var "x"; Value (Num 0)]; Value (Num 1)];
                 Value (Num 2)];
              Value (Num 3)] in
  let r := Multiplication [Value (Num 1); Value (Num 6)] in
  simplify (S (S (S fuel))) ∅ e = Ok r ∧
  simplify (S (S (S fuel))) ∅ r = Ok (Value (Num 0)) ∧
  ¬ semEq ∅ (Value (Num 0)) r.
Proof.
  split; [| split].
  - destruct fuel; vm_compute; reflexivity.
  - destruct fuel; vm_compute; reflexivity.
  - intros H. specialize (H (fun _ => Num 0)).
    assert (Ha : agrees ∅ (fun _ => Num 0)).
    { intros name v Hl. rewrite lookup_empty in Hl. discriminate. }
    specialize (H Ha). vm_compute in H. discriminate.
Qed.

(** A second simplification can also throw: under [a = 4] and [b = -4] the
    sum [(a + b) + x] simplifies to [4 + -4 + x], whose simplification builds
    an Addition of the single child [x]. *)
Lemma simplify_twice_throws (fuel : nat) :
  let knowns : gmap string number := <["a" := Num 4]> (<["b" := Num (-4)]> ∅) in
  let r := Addition [Value (Num 4); Value (Num (-4)); Var "x"] in
  simplify (S fuel) knowns (Addition [Addition [Var "a"; Var "b"]; Var "x"]) = Ok r ∧
  simplify (S fuel) knowns r = Throw ArityError.
Proof. split; destruct fuel; vm_compute; reflexivity. Qed.

(** ** Products with a zero factor *)

(** C7: for [x = Addition([Variable("y"), Constant(0)])] the call
    [Multiplication([x, Constant(0)]).simplify({})] returns no expression: the
    simplification of the child [x] throws an ArityError before the product
    is split. *)
Theorem annihilation_throws (fuel : nat) :
  simplify (S (S fuel)) ∅
    (Multiplication [Addition [Var "y"; Value (Num 0)]; Value (Num 0)])
  = Throw ArityError.
Proof. destruct fuel; vm_compute; reflexivity. Qed.

(** The zero short-circuit itself: once the children are simplified and the
    split of the simplified product has the number 0, the result is
    [Value.ZERO], whatever the residue. *)
Lemma Multiplication_simplify_zero (simp : gmap string number → Expr → res Expr)
    (knowns : gmap string number) (args simplArgs : list Expr) (sf : SplitFunction) :
  mapM (fun arg => if isMultiplication arg then Ok arg else simp knowns arg) args
    = Ok simplArgs →
  (2 ≤ length args ≤ 200)%nat →
  hasUnknowns knowns (Multiplication simplArgs) = true →
  split simp knowns (Multiplication simplArgs) = Ok sf →
  value sf = Num 0 →
  Multiplication_simplify simp knowns args = Ok (Value ZERO).
Proof.
  intros Hmap Hlen Hunk Hsplit Hzero. unfold Multiplication_simplify.
  rewrite Hmap. simpl. unfold new_Multiplication.
  rewrite Function_new_Ok
    by (rewrite (mapM_Ok_length _ _ _ Hmap); unfold MAX_ALLOWED_ARGS; lia).
  simpl in *. rewrite Hunk. simpl. rewrite Hsplit. simpl. rewrite Hzero.
  reflexivity.
Qed.

(** For a variable the annihilation holds, known or unknown. *)
Lemma Multiplication_Var_zero (fuel : nat) (knowns : gmap string number) (name : string) :
  knowns !! name ≠ Some NaN →
  simplify (S fuel) knowns (Multiplication [Var name; Value (Num 0)])
  = Ok (Value (Num 0)).
Proof.
  intros Hnan. cbn -[lookup]. unfold Multiplication_simplify. cbn -[lookup].
  rewrite simplify_Value.
  replace (simplify fuel knowns (Var name)) with (Variable_simplify knowns name)
    by (destruct fuel; reflexivity).
  unfold Variable_simplify.
  destruct (knowns !! name) as [[z|]|] eqn:Hk; cbn -[lookup].
  - rewrite !simplify_Value. reflexivity.
  - congruence.
  - rewrite Hk. rewrite bool_decide_eq_true_2 by reflexivity. cbn -[lookup].
    replace (simplify fuel knowns (Var name)) with (Variable_simplify knowns name)
      by (destruct fuel; reflexivity).
    unfold Variable_simplify. rewrite Hk. reflexivity.
Qed.

(** ** The product rule *)

Section DerivativeFacts.
Variable Value_derivative : number → string → Expr.
Variable Variable_derivative : string → string → Expr.

Lemma operands_lookup (n i j : nat) (d a : Expr) :
  (j < n)%nat →
  operands n i d a !! j = Some (if (j =? i)%nat then d else a).
Proof.
  intros Hj. unfold operands. rewrite list_lookup_fmap.
  rewrite lookup_seq_lt by assumption. reflexivity.
Qed.

Lemma operands_length (n i : nat) (d a : Expr) : length (operands n i d a) = n.
Proof. unfold operands. rewrite length_map. apply length_seq. Qed.

(** [operands] is the list of [n] copies of [this.args[i]] with the
    derivative written at index [i]. *)
Lemma operands_replicate (n i : nat) (d a : Expr) :
  operands n i d a = <[i := d]> (replicate n a).
Proof.
  apply list_eq. intros j.
  destruct (decide (j < n)%nat) as [Hj | Hj].
  - rewrite operands_lookup by assumption.
    destruct (Nat.eqb_spec j i) as [-> | Hne].
    + rewrite list_lookup_insert_eq by (rewrite length_replicate; assumption).
      reflexivity.
    + rewrite list_lookup_insert_ne by congruence.
      symmetry. apply lookup_replicate. split; [reflexivity | assumption].
  - rewrite !lookup_ge_None_2; [reflexivity | |].
    + rewrite length_insert, length_replicate. lia.
    + rewrite operands_length. lia.
Qed.

Lemma multiply_Ok (ops : list Expr) (term : Expr) :
  multiply ops = Ok term → term = Multiplication ops.
Proof.
  unfold multiply, new_Multiplication, Function_new.
  destruct (_ || _)%bool; [discriminate | congruence].
Qed.

Lemma Multiplication_derivative_loop_lookup (self : Expr → res Expr) (n : nat)
    (l : list Expr) (i : nat) (terms : list Expr) :
  Multiplication_derivative_loop self n l i = Ok terms →
  ∀ j a, l !! j = Some a →
    ∃ d, self a = Ok d ∧ terms !! j = Some (Multiplication (operands n (i + j) d a)).
Proof.
  revert i terms. induction l as [|argi l IH]; intros i terms H j a Hj.
  - rewrite lookup_nil in Hj. discriminate.
  - simpl in H.
    destruct (self argi) as [d| |] eqn:Hd; simpl in H; try discriminate.
    destruct (multiply (operands n i d argi)) as [term| |] eqn:Hm;
      simpl in H; try discriminate.
    destruct (Multiplication_derivative_loop self n l (S i)) as [ts| |] eqn:Hl;
      simpl in H; try discriminate.
    injection H as <-. destruct j as [|j]; simpl in Hj.
    + injection Hj as <-. exists d. split; [assumption |].
      simpl. rewrite Nat.add_0_r. f_equal. apply multiply_Ok. assumption.
    + destruct (IH (S i) ts Hl j a Hj) as [d' [Hd' Ht]].
      exists d'. split; [assumption |]. simpl.
      replace (i + S j)%nat with (S i + j)%nat by lia. assumption.
Qed.

(** What [Multiplication.derivative] builds: term [i] holds the derivative of
    factor [i] at index [i] and factor [i] again at every other index. *)
Lemma Multiplication_derivative_terms (variable : string) (args terms : list Expr) :
  derivative Value_derivative Variable_derivative variable (Multiplication args)
    = Ok (Addition terms) →
  ∀ i a, args !! i = Some a →
    ∃ d, derivative Value_derivative Variable_derivative variable a = Ok d ∧
         terms !! i = Some (Multiplication (<[i := d]> (replicate (length args) a))).
Proof.
  intros H i a Hi. simpl in H.
  destruct (Multiplication_derivative_loop _ _ _ _) as [ts| |] eqn:Hl;
    simpl in H; try discriminate.
  unfold plus, new_Addition, Function_new in H.
  destruct (_ || _)%bool; [discriminate |]. injection H as <-.
  destruct (Multiplication_derivative_loop_lookup _ _ _ _ _ Hl i a Hi) as [d [Hd Ht]].
  exists d. split; [assumption |]. rewrite Ht, operands_replicate. reflexivity.
Qed.

(** C2: for the factors [x] and [y], [Multiplication([x, y]).derivative("x")]
    is the sum of [x' * x] and [y * y'], where [x'] and [y'] are the
    derivatives of the two variables: in each term the other factor is
    replaced by a copy of the differentiated one, so the result is not the
    product rule's [x' * y + x * y']. *)
Theorem product_rule_repeats_factor :
  let x' := Variable_derivative "x" "x" in
  let y' := Variable_derivative "y" "x" in
  derivative Value_derivative Variable_derivative "x" (Multiplication [Var "x"; Var "y"])
  = Ok (Addition [Multiplication [x'; Var "x"]; Multiplication [Var "y"; y']]) ∧
  Addition [Multiplication [x'; Var "x"]; Multiplication [Var "y"; y']]
  ≠ Addition [Multiplication [x'; Var "y"]; Multiplication [Var "x"; y']].
Proof.
  split; [reflexivity | intros H; discriminate H].
Qed.

(** With the usual derivatives of the variables ([x' = 1], [y' = 0]) the two
    sums denote different numbers: [1 * x + y * 0] against [1 * y + x * 0]. *)
Lemma product_rule_value_differs :
  Variable_derivative "x" "x" = Value ONE →
  Variable_derivative "y" "x" = Value ZERO →
  ∃ env r,
    derivative Value_derivative Variable_derivative "x" (Multiplication [Var "x"; Var "y"])
      = Ok r ∧
    eval env r = Num 1 ∧
    eval env (Addition [Multiplication [Variable_derivative "x" "x"; Var "y"];
                        Multiplication [Var "x"; Variable_derivative "y" "x"]]) = Num 2.
Proof.
  intros Hx Hy.
  exists (fun name => if String.eqb name "x" then Num 1 else Num 2).
  eexists. split; [reflexivity |]. rewrite Hx, Hy. split; reflexivity.
Qed.
End DerivativeFacts.

(** ** split *)

(** Induction on expressions with the hypothesis available for every argument
    of an operator. *)
Lemma Expr_nested_ind (P : Expr → Prop) :
  (∀ v, P (Value v)) →
  (∀ name, P (Var name)) →
  (∀ args, Forall P args → P (Addition args)) →
  (∀ args, Forall P args → P (Multiplication args)) →
  ∀ e, P e.
Proof.
  intros HValue HVar HAdd HMul.
  fix IH 1. intros [v | name | args | args].
  - apply HValue.
  - apply HVar.
  - apply HAdd. induction args as [|a args IHargs]; constructor; [apply IH | exact IHargs].
  - apply HMul. induction args as [|a args IHargs]; constructor; [apply IH | exact IHargs].
Qed.

Section SplitFacts.
Variable simp : gmap string number → Expr → res Expr.
Variable knowns : gmap string number.

(** The loop with its two accumulators takes the running number through the
    contributions of the remaining children and appends their residue. *)
Lemma Addition_split_loop_contributions (self self' : Expr → res SplitFunction)
    (l : list Expr) (num : number) (sym : list Expr) :
  Forall (fun a => isAddition a = true → self a = self' a) l →
  Addition_split_loop simp knowns self l num sym
  = (cs ← mapM (Addition_contribution simp knowns self') l;
     Ok (mkSplit (sym ++ concat (map fst cs)) (fold_left accumulate (map snd cs) num))).
Proof.
  intros Hself. revert num sym.
  induction Hself as [|arg l Harg Hl IH]; intros num sym; cbn -[nadd].
  - rewrite app_nil_r. reflexivity.
  - destruct arg as [v | name | args | args]; cbn -[nadd].
    + rewrite IH. destruct (mapM _ l) as [cs| |]; reflexivity.
    + destruct (simp knowns (Var name)) as [s| |]; cbn -[nadd];
        [| reflexivity | reflexivity].
      rewrite IH. destruct (mapM _ l) as [cs| |]; cbn -[nadd];
        [| reflexivity | reflexivity].
      rewrite <- app_assoc. reflexivity.
    + rewrite <- Harg by reflexivity.
      destruct (self (Addition args)) as [sub| |]; cbn -[nadd];
        [| reflexivity | reflexivity].
      rewrite IH. destruct (mapM _ l) as [cs| |]; cbn -[nadd];
        [| reflexivity | reflexivity].
      rewrite <- app_assoc. reflexivity.
    + destruct (simp knowns (Multiplication args)) as [s| |]; cbn -[nadd];
        [| reflexivity | reflexivity].
      rewrite IH. destruct (mapM _ l) as [cs| |]; cbn -[nadd];
        [| reflexivity | reflexivity].
      rewrite <- app_assoc. reflexivity.
Qed.

Lemma Addition_split_is_spec (e : Expr) :
  isAddition e = true → split simp knowns e = Addition_split_spec simp knowns e.
Proof.
  induction e as [v | name | args IH | args IH] using Expr_nested_ind;
    intros He; try discriminate He.
  cbn -[nadd].
  rewrite (Addition_split_loop_contributions _ (Addition_split_spec simp knowns))
    by exact IH.
  reflexivity.
Qed.
End SplitFacts.

(** C6: [Addition.split] computes what the spec describes: the running
    accumulator, from 0, takes in from left to right the value of each
    top-level Constant and the total of the split of each nested Addition, and
    the residue is, in order, the residue of the nested Additions and the
    simplified form of every other child; and
    [Addition([Constant(2), Constant(3), Variable("x")]).split({})] is the
    total 5 with the residue [[Variable("x")]]. *)
Theorem Addition_split_correct :
  (∀ simp knowns args,
     split simp knowns (Addition args) = Addition_split_spec simp knowns (Addition args)) ∧
  (∀ fuel,
     split (simplify fuel) ∅ (Addition [Value (Num 2); Value (Num 3); Var "x"])
     = Ok (mkSplit [Var "x"] (Num 5))).
Proof.
  split.
  - intros simp knowns args. apply Addition_split_is_spec. reflexivity.
  - intros fuel. destruct fuel; vm_compute; reflexivity.
Qed.

(** ** The residue of split *)

Section ResidueFacts.
Variable simp : gmap string number → Expr → res Expr.
Variable knowns : gmap string number.

Lemma Addition_split_loop_residue (self : Expr → res SplitFunction)
    (leaves : Expr → list Expr) (l : list Expr) :
  Forall (fun a => isAddition a = true → ∀ sf, self a = Ok sf →
            Forall2 (fun x r => simp knowns x = Ok r) (leaves a) (expressions sf)) l →
  ∀ num sym sf,
    Addition_split_loop simp knowns self l num sym = Ok sf →
    ∃ rs, expressions sf = sym ++ rs ∧
          Forall2 (fun x r => simp knowns x = Ok r)
                  (symbolicChildren_loop isAddition leaves l) rs.
Proof.
  induction 1 as [|arg l Harg Hl IH]; intros num sym sf H; simpl in H.
  - injection H as <-. exists []. simpl. rewrite app_nil_r. split; [reflexivity | constructor].
  - destruct arg as [v | name | args | args]; simpl in *.
    + apply IH in H. exact H.
    + destruct (simp knowns (Var name)) as [s| |] eqn:Hs; simpl in H; try discriminate.
      apply IH in H. destruct H as [rs [Hrs Hall]].
      exists (s :: rs). rewrite Hrs, <- app_assoc. split; [reflexivity |].
      constructor; assumption.
    + destruct (self (Addition args)) as [n| |] eqn:Hn; simpl in H; try discriminate.
      apply IH in H. destruct H as [rs [Hrs Hall]].
      exists (expressions n ++ rs). rewrite Hrs, <- app_assoc. split; [reflexivity |].
      apply Forall2_app; [apply Harg; reflexivity | assumption].
    + destruct (simp knowns (Multiplication args)) as [s| |] eqn:Hs; simpl in H;
        try discriminate.
      apply IH in H. destruct H as [rs [Hrs Hall]].
      exists (s :: rs). rewrite Hrs, <- app_assoc. split; [reflexivity |].
      constructor; assumption.
Qed.

Lemma Multiplication_split_loop_residue (self : Expr → res SplitFunction)
    (leaves : Expr → list Expr) (l : list Expr) :
  Forall (fun a => isMultiplication a = true → ∀ sf, self a = Ok sf →
            Forall2 (fun x r => simp knowns x = Ok r) (leaves a) (expressions sf)) l →
  ∀ num sym sf,
    Multiplication_split_loop simp knowns self l num sym = Ok sf →
    ∃ rs, expressions sf = sym ++ rs ∧
          Forall2 (fun x r => simp knowns x = Ok r)
                  (symbolicChildren_loop isMultiplication leaves l) rs.
Proof.
  induction 1 as [|arg l Harg Hl IH]; intros num sym sf H; simpl in H.
  - injection H as <-. exists []. simpl. rewrite app_nil_r. split; [reflexivity | constructor].
  - destruct arg as [v | name | args | args]; simpl in *.
    + apply IH in H. exact H.
    + destruct (simp knowns (Var name)) as [s| |] eqn:Hs; simpl in H; try discriminate.
      apply IH in H. destruct H as [rs [Hrs Hall]].
      exists (s :: rs). rewrite Hrs, <- app_assoc. split; [reflexivity |].
      constructor; assumption.
    + destruct (simp knowns (Addition args)) as [s| |] eqn:Hs; simpl in H;
        try discriminate.
      apply IH in H. destruct H as [rs [Hrs Hall]].
      exists (s :: rs). rewrite Hrs, <- app_assoc. split; [reflexivity |].
      constructor; assumption.
    + destruct (self (Multiplication args)) as [n| |] eqn:Hn; simpl in H; try discriminate.
      apply IH in H. destruct H as [rs [Hrs Hall]].
      exists (expressions n ++ rs). rewrite Hrs, <- app_assoc. split; [reflexivity |].
      apply Forall2_app; [apply Harg; reflexivity | assumption].
Qed.

(** The residue of [Addition.split] is, element by element, the simplified
    form of the symbolic children. *)
Lemma Addition_split_residue (e : Expr) (sf : SplitFunction) :
  isAddition e = true →
  split simp knowns e = Ok sf →
  Forall2 (fun x r => simp knowns x = Ok r) (Addition_symbolicChildren e) (expressions sf).
Proof.
  revert sf.
  induction e as [v | name | args IH | args IH] using Expr_nested_ind;
    intros sf He H; try discriminate He.
  simpl in H.
  apply (Addition_split_loop_residue _ Addition_symbolicChildren) in H.
  - destruct H as [rs [-> Hall]]. exact Hall.
  - eapply Forall_impl; [exact IH |]. intros a Ha Hadd sf' Hsf. apply Ha; assumption.
Qed.

Lemma Multiplication_split_residue (e : Expr) (sf : SplitFunction) :
  isMultiplication e = true →
  split simp knowns e = Ok sf →
  Forall2 (fun x r => simp knowns x = Ok r)
          (Multiplication_symbolicChildren e) (expressions sf).
Proof.
  revert sf.
  induction e as [v | name | args IH | args IH] using Expr_nested_ind;
    intros sf He H; try discriminate He.
  simpl in H.
  apply (Multiplication_split_loop_residue _ Multiplication_symbolicChildren) in H.
  - destruct H as [rs [-> Hall]]. exact Hall.
  - eapply Forall_impl; [exact IH |]. intros a Ha Hmul sf' Hsf. apply Ha; assumption.
Qed.
End ResidueFacts.

Lemma symbolicChildren_loop_Forall (same : Expr → bool) (self : Expr → list Expr)
    (l : list Expr) :
  Forall (fun a => same a = true →
            Forall (fun x => isValue x = false ∧ same x = false) (self a)) l →
  Forall (fun x => isValue x = false ∧ same x = false) (symbolicChildren_loop same self l).
Proof.
  induction 1 as [|arg l Harg Hl IH]; simpl; [constructor |].
  apply Forall_app. split; [| exact IH].
  destruct (isValue arg) eqn:Hv; [constructor |].
  destruct (same arg) eqn:Hs; [apply Harg; reflexivity |].
  constructor; [split; assumption | constructor].
Qed.

(** No symbolic child of an Addition is a [Value] or an [Addition]. *)
Lemma Addition_symbolicChildren_kind (e : Expr) :
  Forall (fun x => isValue x = false ∧ isAddition x = false) (Addition_symbolicChildren e).
Proof.
  induction e as [v | name | args IH | args IH] using Expr_nested_ind;
    simpl; try constructor.
  apply symbolicChildren_loop_Forall.
  eapply Forall_impl; [exact IH |]. intros a Ha _. exact Ha.
Qed.

(** No symbolic child of a Multiplication is a [Value] or a [Multiplication]. *)
Lemma Multiplication_symbolicChildren_kind (e : Expr) :
  Forall (fun x => isValue x = false ∧ isMultiplication x = false)
         (Multiplication_symbolicChildren e).
Proof.
  induction e as [v | name | args IH | args IH] using Expr_nested_ind;
    simpl; try constructor.
  apply symbolicChildren_loop_Forall.
  eapply Forall_impl; [exact IH |]. intros a Ha _. exact Ha.
Qed.

(** ** The class of a simplified sum *)

Lemma new_Addition_Ok (args : list Expr) (r : Expr) :
  new_Addition args = Ok r → r = Addition args.
Proof.
  unfold new_Addition, Function_new.
  destruct (_ || _)%bool; [discriminate | congruence].
Qed.

Lemma new_Multiplication_Ok (args : list Expr) (r : Expr) :
  new_Multiplication args = Ok r → r = Multiplication args.
Proof.
  unfold new_Multiplication, Function_new.
  destruct (_ || _)%bool; [discriminate | congruence].
Qed.

Lemma groupLikeTerms_Addition (simp : gmap string number → Expr → res Expr)
    (knowns : gmap string number) (args : list Expr) (r : Expr) :
  groupLikeTerms simp knowns args = Ok r → isAddition r = true.
Proof.
  unfold groupLikeTerms. intros H.
  destruct (foldM _ args _) as [[groups otherExprs]| |]; simpl in H; try discriminate.
  destruct (foldM _ (HashMap.keys groups) _) as [exprsOut| |]; simpl in H;
    try discriminate.
  apply new_Addition_Ok in H. subst r. reflexivity.
Qed.

(** [Addition.simplify] returns a [Value] or an [Addition]. *)
Lemma Addition_simplify_class (simp : gmap string number → Expr → res Expr)
    (knowns : gmap string number) (args : list Expr) (r : Expr) :
  Addition_simplify simp knowns args = Ok r →
  isValue r = true ∨ isAddition r = true.
Proof.
  unfold Addition_simplify. intros H.
  destruct (mapM _ args) as [simplArgs| |]; simpl in H; try discriminate.
  destruct (new_Addition simplArgs) as [simplAddition| |]; simpl in H; try discriminate.
  destruct (hasUnknowns knowns simplAddition); simpl in H.
  - destruct (split simp knowns simplAddition) as [splitArgs| |]; simpl in H;
      try discriminate.
    destruct (mapM _ (HashMap.keys _)) as [groupedArgs| |]; simpl in H; try discriminate.
    destruct (length groupedArgs =? 0)%nat.
    + injection H as <-. left. reflexivity.
    + destruct (new_Addition _) as [a| |]; simpl in H; try discriminate.
      destruct a; try discriminate.
      right. eapply groupLikeTerms_Addition, H.
  - unfold Addition_evaluate in H.
    destruct (foldM _ simplArgs _) as [sum| |]; simpl in H; try discriminate.
    injection H as <-. left. reflexivity.
Qed.

(** Simplifying anything but a Multiplication never gives a Multiplication. *)
Lemma simplify_not_Multiplication (fuel : nat) (knowns : gmap string number) (x r : Expr) :
  isMultiplication x = false → simplify fuel knowns x = Ok r → isMultiplication r = false.
Proof.
  intros Hx H. destruct x as [v | name | args | args]; try discriminate Hx.
  - rewrite simplify_Value in H. injection H as <-. reflexivity.
  - assert (Hv : Variable_simplify knowns name = Ok r) by (destruct fuel; exact H).
    unfold Variable_simplify in Hv.
    destruct (knowns !! name); injection Hv as <-; reflexivity.
  - destruct fuel as [|fuel]; [discriminate H |]. simpl in H.
    apply Addition_simplify_class in H. destruct r; try reflexivity.
    destruct H; discriminate.
Qed.

(** C10, the counterexample: under [a = 4] the residue of
    [Addition([a, x]).split] and of [Multiplication([a, x]).split] holds the
    constant 4, and the residue of [Addition([(x + y) * 1, z]).split({})] holds
    the Addition [x + y]. *)
Lemma split_residue_holds_Value :
  (let sf := mkSplit [Value (Num 4); Var "x"] (Num 0) in
   split (simplify 2) {[ "a" := Num 4 ]} (Addition [Var "a"; Var "x"]) = Ok sf ∧
   ¬ Forall (fun r => isValue r = false) (expressions sf)) ∧
  (let sf := mkSplit [Value (Num 4); Var "x"] (Num 1) in
   split (simplify 2) {[ "a" := Num 4 ]} (Multiplication [Var "a"; Var "x"]) = Ok sf ∧
   ¬ Forall (fun r => isValue r = false) (expressions sf)) ∧
  (let sf := mkSplit [Addition [Var "x"; Var "y"]; Var "z"] (Num 0) in
   split (simplify 2) ∅
         (Addition [Multiplication [Addition [Var "x"; Var "y"]; Value (Num 1)]; Var "z"])
     = Ok sf ∧
   ¬ Forall (fun r => isAddition r = false) (expressions sf)).
Proof.
  repeat split; try (vm_compute; reflexivity);
    intros H; inversion H; discriminate.
Qed.

(** C10, as amended: the residue of [Addition.split] is, in order, the
    simplified form of the descendants reached through nested Additions that
    are neither a [Value] nor an [Addition]; the residue of
    [Multiplication.split] is the simplified form of the descendants reached
    through nested Multiplications that are neither a [Value] nor a
    [Multiplication], and none of its elements is a Multiplication. *)
Theorem split_residue_simplified (fuel : nat) (knowns : gmap string number)
    (args : list Expr) (sf : SplitFunction) :
  (split (simplify fuel) knowns (Addition args) = Ok sf →
     Forall (fun x => isValue x = false ∧ isAddition x = false)
            (Addition_symbolicChildren (Addition args)) ∧
     Forall2 (fun x r => simplify fuel knowns x = Ok r)
             (Addition_symbolicChildren (Addition args)) (expressions sf)) ∧
  (split (simplify fuel) knowns (Multiplication args) = Ok sf →
     Forall (fun x => isValue x = false ∧ isMultiplication x = false)
            (Multiplication_symbolicChildren (Multiplication args)) ∧
     Forall2 (fun x r => simplify fuel knowns x = Ok r)
             (Multiplication_symbolicChildren (Multiplication args)) (expressions sf) ∧
     Forall (fun r => isMultiplication r = false) (expressions sf)).
Proof.
  split; intros H.
  - split; [apply Addition_symbolicChildren_kind |].
    apply Addition_split_residue; [reflexivity | exact H].
  - pose proof (Multiplication_symbolicChildren_kind (Multiplication args)) as Hkind.
    pose proof (Multiplication_split_residue (simplify fuel) knowns
                  (Multiplication args) sf eq_refl H) as Hres.
    split; [exact Hkind |]. split; [exact Hres |].
    revert Hkind Hres. generalize (Multiplication_symbolicChildren (Multiplication args)).
    generalize (expressions sf). intros rs xs Hkind Hres.
    induction Hres as [|x r xs rs Hx Hrest IH]; constructor.
    + inversion Hkind as [|? ? [_ Hm] ?]; subst.
      eapply simplify_not_Multiplication; eassumption.
    + apply IH. inversion Hkind; assumption.
Qed.

(** The two splits of a sum and of a product under [a = 4]. *)
Lemma split_residue_simplified_witness :
  let knowns : gmap string number := {[ "a" := Num 4 ]} in
  let args := [Var "a"; Multiplication [Var "x"; Var "y"]; Value (Num 2);
               Addition [Var "x"; Value (Num 3)]] in
  let margs := [Var "a"; Multiplication [Var "x"; Value (Num 5)]; Value (Num 2);
                Addition [Var "x"; Var "y"]] in
  (Forall (fun x => isValue x = false ∧ isAddition x = false)
          (Addition_symbolicChildren (Addition args)) ∧
   Forall2 (fun x r => simplify 3 knowns x = Ok r)
           (Addition_symbolicChildren (Addition args))
           [Value (Num 4); Multiplication [Var "x"; Var "y"]; Var "x"]) ∧
  (Forall (fun x => isValue x = false ∧ isMultiplication x = false)
          (Multiplication_symbolicChildren (Multiplication margs)) ∧
   Forall2 (fun x r => simplify 3 knowns x = Ok r)
           (Multiplication_symbolicChildren (Multiplication margs))
           [Value (Num 4); Var "x"; Addition [Var "x"; Var "y"]] ∧
   Forall (fun r => isMultiplication r = false)
          [Value (Num 4); Var "x"; Addition [Var "x"; Var "y"]]).
Proof.
  intros knowns args margs. split.
  - apply (proj1 (split_residue_simplified 3 knowns args
                    (mkSplit [Value (Num 4); Multiplication [Var "x"; Var "y"]; Var "x"]
                             (Num 5)))).
    vm_compute. reflexivity.
  - apply (proj2 (split_residue_simplified 3 knowns margs
                    (mkSplit [Value (Num 4); Var "x"; Addition [Var "x"; Var "y"]]
                             (Num 10)))).
    vm_compute. reflexivity.
Defined.

(** ** Full evaluation *)

Lemma simplify_Var (fuel : nat) (knowns : gmap string number) (name : string) :
  simplify fuel knowns (Var name) = Variable_simplify knowns name.
Proof. destruct fuel; reflexivity. Qed.

Lemma hasUnknowns_Var_false (knowns : gmap string number) (name : string) :
  hasUnknowns knowns (Var name) = false → ∃ v, knowns !! name = Some v.
Proof.
  simpl. intros H. apply bool_decide_eq_false in H.
  destruct (knowns !! name) as [v|]; [exists v; reflexivity | congruence].
Qed.

Section KnownChildren.
Variable fuel : nat.
Variable knowns : gmap string number.
Hypothesis known_Value : ∀ e r,
  hasUnknowns knowns e = false → simplify fuel knowns e = Ok r → ∃ v, r = Value v.

(** The first loop of [simplify] keeps a list without unknowns free of
    unknowns. *)
Lemma simplArgs_known (same : Expr → bool) (args simplArgs : list Expr) :
  mapM (fun arg => if same arg then Ok arg else simplify fuel knowns arg) args
    = Ok simplArgs →
  existsb (hasUnknowns knowns) args = false →
  existsb (hasUnknowns knowns) simplArgs = false.
Proof.
  revert simplArgs. induction args as [|arg args IH]; intros simplArgs H Hunk;
    simpl in H.
  - injection H as <-. reflexivity.
  - simpl in Hunk. apply orb_false_iff in Hunk. destruct Hunk as [Harg Hargs].
    destruct (if same arg then Ok arg else simplify fuel knowns arg) as [s| |] eqn:Hs;
      simpl in H; try discriminate.
    destruct (mapM _ args) as [ss| |] eqn:Hss; simpl in H; try discriminate.
    injection H as <-. simpl. rewrite (IH ss eq_refl Hargs), orb_false_r.
    destruct (same arg).
    + injection Hs as <-. exact Harg.
    + destruct (known_Value arg s Harg Hs) as [v ->]. reflexivity.
Qed.
End KnownChildren.

(** Whenever [hasUnknowns] reports false, a simplification that returns,
    returns a [Value]. *)
Lemma simplify_known_Value (fuel : nat) (knowns : gmap string number) (e r : Expr) :
  hasUnknowns knowns e = false → simplify fuel knowns e = Ok r → ∃ v, r = Value v.
Proof.
  revert e r. induction fuel as [|fuel IH]; intros e r Hunk H;
    destruct e as [v | name | args | args].
  1, 5: rewrite simplify_Value in H; injection H as <-; eauto.
  1, 4: rewrite simplify_Var in H; unfold Variable_simplify in H;
        destruct (hasUnknowns_Var_false _ _ Hunk) as [v Hv]; rewrite Hv in H;
        injection H as <-; eauto.
  1, 2: discriminate H.
  - simpl in H. unfold Addition_simplify in H.
    destruct (mapM _ args) as [simplArgs| |] eqn:Hmap; simpl in H; try discriminate.
    destruct (new_Addition simplArgs) as [simplAddition| |] eqn:Hnew; simpl in H;
      try discriminate.
    apply new_Addition_Ok in Hnew. subst simplAddition. simpl in H.
    rewrite (simplArgs_known fuel knowns IH _ _ _ Hmap Hunk) in H. simpl in H.
    unfold Addition_evaluate in H.
    destruct (foldM _ simplArgs _) as [sum| |]; simpl in H; try discriminate.
    injection H as <-. eauto.
  - simpl in H. unfold Multiplication_simplify in H.
    destruct (mapM _ args) as [simplArgs| |] eqn:Hmap; simpl in H; try discriminate.
    destruct (new_Multiplication simplArgs) as [simplMult| |] eqn:Hnew; simpl in H;
      try discriminate.
    apply new_Multiplication_Ok in Hnew. subst simplMult. simpl in H.
    rewrite (simplArgs_known fuel knowns IH _ _ _ Hmap Hunk) in H. simpl in H.
    unfold Multiplication_evaluate in H.
    destruct (foldM _ simplArgs _) as [product| |]; simpl in H; try discriminate.
    injection H as <-. eauto.
Qed.

(** The reads of the evaluation loop are not checked: when every child's
    simplification returns, the loop returns a number. *)
Lemma foldM_valueOf_returns (simp : gmap string number → Expr → res Expr)
    (knowns : gmap string number) (op : number → number → number)
    (l : list Expr) (acc : number) :
  Forall (fun a => ∃ r, simp knowns a = Ok r) l →
  ∃ total, foldM (fun acc a => s ← simp knowns a; Ok (op acc (valueOf s))) l acc = Ok total.
Proof.
  intros Hall. revert acc. induction Hall as [|a l [r Hr] Hl IH]; intros acc; simpl.
  - eauto.
  - rewrite Hr. simpl. apply IH.
Qed.

(** What the evaluation loop returns when every child's simplification
    returns: the fold of the numbers read from the simplified children. *)
Lemma foldM_valueOf_fold (simp : gmap string number → Expr → res Expr)
    (knowns : gmap string number) (op : number → number → number)
    (l rs : list Expr) :
  Forall2 (fun a r => simp knowns a = Ok r) l rs →
  ∀ acc, foldM (fun acc a => s ← simp knowns a; Ok (op acc (valueOf s))) l acc
         = Ok (fold_left op (map valueOf rs) acc).
Proof.
  induction 1 as [|a r l rs Hr Hl IH]; intros acc; simpl; [reflexivity |].
  rewrite Hr. simpl. apply IH.
Qed.

Lemma fold_left_NaN (op : number → number → number) (vs : list number) :
  (∀ a, op NaN a = NaN) → fold_left op vs NaN = NaN.
Proof. intros Hl. induction vs as [|v vs IH]; simpl; [reflexivity | rewrite Hl; exact IH]. Qed.

(** One read of [undefined] makes the whole fold [NaN]. *)
Lemma fold_left_valueOf_NaN (op : number → number → number) (rs : list Expr) :
  (∀ a, op NaN a = NaN) → (∀ a, op a NaN = NaN) →
  Exists (fun r => isValue r = false) rs →
  ∀ acc, fold_left op (map valueOf rs) acc = NaN.
Proof.
  intros Hl Hr. induction 1 as [r rs Hv | r rs Hrs IH]; intros acc; simpl.
  - destruct r; try discriminate Hv; simpl; rewrite Hr; apply fold_left_NaN; assumption.
  - apply IH.
Qed.

Lemma nadd_NaN_r (a : number) : nadd a NaN = NaN.
Proof. destruct a; reflexivity. Qed.

Lemma nmul_NaN_r (a : number) : nmul a NaN = NaN.
Proof. destruct a; reflexivity. Qed.

(** C9, the counterexample: under [x = 4] the sum [x + 1] has no unknowns, so
    [simplify] takes the evaluation branch; with a simplification of the
    children that leaves the known variable [x] as it is, the child read by the
    branch is not a Constant, and both operators raise no error and return
    [Constant(NaN)]. *)
Lemma evaluation_coerces_silently :
  let knowns : gmap string number := {[ "x" := Num 4 ]} in
  let simp : gmap string number → Expr → res Expr := fun _ e => Ok e in
  hasUnknowns knowns (Addition [Var "x"; Value (Num 1)]) = false ∧
  hasUnknowns knowns (Multiplication [Var "x"; Value (Num 1)]) = false ∧
  Addition_simplify simp knowns [Var "x"; Value (Num 1)] = Ok (Value NaN) ∧
  Multiplication_simplify simp knowns [Var "x"; Value (Num 1)] = Ok (Value NaN).
Proof. repeat split; vm_compute; reflexivity. Qed.

Section KnownTotal.
Variable knowns : gmap string number.

Lemma returnsValue_le (d d' : nat) (e : Expr) (v : number) :
  (d ≤ d')%nat → returnsValue knowns d e v → returnsValue knowns d' e v.
Proof. intros Hle H fuel Hfuel. apply H. lia. Qed.

Lemma known_simplArgs (same : Expr → bool) (args : list Expr) :
  Forall (fun a => wellFormed a = true → hasUnknowns knowns a = false →
                   ∃ v, returnsValue knowns (depth a) a v) args →
  forallb wellFormed args = true →
  existsb (hasUnknowns knowns) args = false →
  ∃ simplArgs,
    (∀ fuel, (maxDepth args ≤ fuel)%nat →
       mapM (fun arg => if same arg then Ok arg else simplify fuel knowns arg) args
       = Ok simplArgs) ∧
    Forall (fun s => ∃ v, returnsValue knowns (maxDepth args) s v) simplArgs ∧
    existsb (hasUnknowns knowns) simplArgs = false ∧
    length simplArgs = length args.
Proof.
  induction 1 as [|arg args Harg Hargs IH]; intros Hwf Hunk.
  - exists []. repeat split; constructor.
  - simpl in Hwf, Hunk. apply andb_true_iff in Hwf. destruct Hwf as [Hwf1 Hwf2].
    apply orb_false_iff in Hunk. destruct Hunk as [Hunk1 Hunk2].
    destruct (IH Hwf2 Hunk2) as [ss [Hmap [Hall [Hss Hlen]]]].
    destruct (Harg Hwf1 Hunk1) as [v Hv].
    assert (Hrest : Forall (fun s => ∃ v, returnsValue knowns (maxDepth (arg :: args)) s v) ss).
    { eapply Forall_impl; [exact Hall |]. intros s [w Hw]. exists w.
      eapply returnsValue_le; [| exact Hw]. simpl. lia. }
    destruct (same arg) eqn:Hsame.
    + exists (arg :: ss). repeat split.
      * intros fuel Hfuel. simpl in *. rewrite Hsame. simpl.
        rewrite Hmap by lia. reflexivity.
      * constructor; [| exact Hrest]. exists v.
        eapply returnsValue_le; [| exact Hv]. simpl. lia.
      * simpl. rewrite Hunk1, Hss. reflexivity.
      * simpl. rewrite Hlen. reflexivity.
    + exists (Value v :: ss). repeat split.
      * intros fuel Hfuel. simpl in *. rewrite Hsame.
        rewrite Hv by lia. simpl. rewrite Hmap by lia. reflexivity.
      * constructor; [| exact Hrest]. exists v.
        intros fuel _. apply simplify_Value.
      * simpl. exact Hss.
      * simpl. rewrite Hlen. reflexivity.
Qed.

Lemma known_foldM (d : nat) (op : number → number → number) (simplArgs : list Expr) :
  Forall (fun s => ∃ v, returnsValue knowns d s v) simplArgs →
  ∀ acc, ∃ total, ∀ fuel, (d ≤ fuel)%nat →
    foldM (fun acc a => s ← simplify fuel knowns a; Ok (op acc (valueOf s))) simplArgs acc
    = Ok total.
Proof.
  induction 1 as [|s ss [v Hv] Hss IH]; intros acc.
  - exists acc. reflexivity.
  - destruct (IH (op acc v)) as [total Htotal]. exists total.
    intros fuel Hfuel. simpl. rewrite Hv by assumption. simpl. apply Htotal. assumption.
Qed.

Lemma wellFormed_args (args : list Expr) :
  ((2 <=? length args)%nat && (length args <=? MAX_ALLOWED_ARGS)%nat
   && forallb wellFormed args = true) →
  (2 ≤ length args ≤ MAX_ALLOWED_ARGS)%nat ∧ forallb wellFormed args = true.
Proof.
  intros H. apply andb_true_iff in H. destruct H as [H Hall].
  apply andb_true_iff in H. destruct H as [Hlo Hhi].
  apply Nat.leb_le in Hlo, Hhi. auto.
Qed.

(** A well-formed expression without unknowns simplifies to a constant: the
    call returns as soon as the bound reaches the depth of the expression. *)
Lemma simplify_known_total (e : Expr) :
  wellFormed e = true → hasUnknowns knowns e = false →
  ∃ v, returnsValue knowns (depth e) e v.
Proof.
  induction e as [v | name | args IH | args IH] using Expr_nested_ind; intros Hwf Hunk.
  - exists v. intros fuel _. apply simplify_Value.
  - destruct (hasUnknowns_Var_false _ _ Hunk) as [v Hv]. exists v.
    intros fuel _. rewrite simplify_Var. unfold Variable_simplify. rewrite Hv. reflexivity.
  - simpl in Hwf, Hunk. apply wellFormed_args in Hwf. destruct Hwf as [Hlen Hwf].
    destruct (known_simplArgs isAddition args IH Hwf Hunk)
      as [simplArgs [Hmap [Hall [Hss Hsl]]]].
    destruct (known_foldM _ nadd simplArgs Hall (Num 0)) as [total Htotal].
    exists total. intros fuel Hfuel. simpl in Hfuel.
    destruct fuel as [|fuel]; [lia |].
    assert (Hd : (maxDepth args ≤ fuel)%nat) by (unfold maxDepth; lia).
    simpl. unfold Addition_simplify. rewrite (Hmap fuel Hd). simpl.
    unfold new_Addition. rewrite Function_new_Ok by (rewrite Hsl; exact Hlen).
    simpl. rewrite Hss. simpl. unfold Addition_evaluate.
    rewrite (Htotal fuel Hd). reflexivity.
  - simpl in Hwf, Hunk. apply wellFormed_args in Hwf. destruct Hwf as [Hlen Hwf].
    destruct (known_simplArgs isMultiplication args IH Hwf Hunk)
      as [simplArgs [Hmap [Hall [Hss Hsl]]]].
    destruct (known_foldM _ nmul simplArgs Hall (Num 0)) as [total Htotal].
    exists total. intros fuel Hfuel. simpl in Hfuel.
    destruct fuel as [|fuel]; [lia |].
    assert (Hd : (maxDepth args ≤ fuel)%nat) by (unfold maxDepth; lia).
    simpl. unfold Multiplication_simplify. rewrite (Hmap fuel Hd). simpl.
    unfold new_Multiplication. rewrite Function_new_Ok by (rewrite Hsl; exact Hlen).
    simpl. rewrite Hss. simpl. unfold Multiplication_evaluate.
    rewrite (Htotal fuel Hd). reflexivity.
Qed.
End KnownTotal.

(** What [simplify] does once its children are simplified into [simplArgs]
    and [hasUnknowns] reports false for them: it returns what the evaluation
    branch computes. *)
Lemma simplify_takes_evaluation (simp : gmap string number → Expr → res Expr)
    (knowns : gmap string number) (args simplArgs : list Expr) :
  (2 ≤ length args ≤ 200)%nat →
  existsb (hasUnknowns knowns) simplArgs = false →
  (mapM (fun arg => if isAddition arg then Ok arg else simp knowns arg) args
     = Ok simplArgs →
   Addition_simplify simp knowns args = Addition_evaluate simp knowns simplArgs) ∧
  (mapM (fun arg => if isMultiplication arg then Ok arg else simp knowns arg) args
     = Ok simplArgs →
   Multiplication_simplify simp knowns args
   = Multiplication_evaluate simp knowns simplArgs).
Proof.
  intros Hlen Hunk. split; intros Hmap.
  - unfold Addition_simplify. rewrite Hmap. cbn [mbind res_bind].
    unfold new_Addition.
    rewrite Function_new_Ok
      by (rewrite (mapM_Ok_length _ _ _ Hmap); unfold MAX_ALLOWED_ARGS; lia).
    cbn [mbind res_bind hasUnknowns]. rewrite Hunk. reflexivity.
  - unfold Multiplication_simplify. rewrite Hmap. cbn [mbind res_bind].
    unfold new_Multiplication.
    rewrite Function_new_Ok
      by (rewrite (mapM_Ok_length _ _ _ Hmap); unfold MAX_ALLOWED_ARGS; lia).
    cbn [mbind res_bind hasUnknowns]. rewrite Hunk. reflexivity.
Qed.

(** C9, as amended: the evaluation branch reads the numbers without a check
    and raises no error of its own: once the children are simplified into
    [simplArgs] and [hasUnknowns] reports false, [simplify] returns what the
    branch computes; when every child's simplification returns, that is a
    constant, and the constant is [NaN] as soon as one simplified child is not
    a Constant.  With the simplification of the program the read never meets
    anything but a Constant: when [hasUnknowns] reports false, any
    simplification of a child that returns, returns a Constant, and every
    well-formed child simplifies to a Constant. *)
Theorem evaluation_meets_only_Values (knowns : gmap string number) (simplArgs : list Expr) :
  (∀ simp rs, Forall2 (fun a r => simp knowns a = Ok r) simplArgs rs →
     (∃ sum product,
        Addition_evaluate simp knowns simplArgs = Ok (Value sum) ∧
        Multiplication_evaluate simp knowns simplArgs = Ok (Value product)) ∧
     (Exists (fun r => isValue r = false) rs →
        Addition_evaluate simp knowns simplArgs = Ok (Value NaN) ∧
        Multiplication_evaluate simp knowns simplArgs = Ok (Value NaN))) ∧
  (existsb (hasUnknowns knowns) simplArgs = false →
     (∀ simp args, (2 ≤ length args ≤ 200)%nat →
        (mapM (fun arg => if isAddition arg then Ok arg else simp knowns arg) args
           = Ok simplArgs →
         Addition_simplify simp knowns args = Addition_evaluate simp knowns simplArgs) ∧
        (mapM (fun arg => if isMultiplication arg then Ok arg else simp knowns arg) args
           = Ok simplArgs →
         Multiplication_simplify simp knowns args
         = Multiplication_evaluate simp knowns simplArgs)) ∧
     Forall (fun a =>
               (∀ fuel r, simplify fuel knowns a = Ok r → ∃ v, r = Value v) ∧
               (wellFormed a = true →
                ∃ v, ∀ fuel, (depth a ≤ fuel)%nat → simplify fuel knowns a = Ok (Value v)))
            simplArgs).
Proof.
  split.
  - intros simp rs Hall. unfold Addition_evaluate, Multiplication_evaluate.
    rewrite !(foldM_valueOf_fold simp knowns _ simplArgs rs Hall). simpl.
    split; [eauto |]. intros Hex.
    rewrite !fold_left_valueOf_NaN by (try exact Hex; auto using nadd_NaN_r, nmul_NaN_r).
    split; reflexivity.
  - intros Hunk. split.
    { intros simp args Hlen. apply simplify_takes_evaluation; assumption. }
    apply Forall_forall. intros a Ha.
    assert (Hka : hasUnknowns knowns a = false).
    { destruct (hasUnknowns knowns a) eqn:E; [| reflexivity].
      assert (existsb (hasUnknowns knowns) simplArgs = true); [| congruence].
      apply existsb_exists. exists a. split; [| exact E].
      apply list_elem_of_In. exact Ha. }
    split.
    + intros fuel r Hr. eapply simplify_known_Value; eassumption.
    + intros Hwf. apply simplify_known_total; assumption.
Qed.

(** The sum and the product of [x] and [1] under [x = 4]: with a
    simplification that leaves [x] as it is the branch returns [NaN]; with the
    simplification of the program both children simplify to Constants. *)
Lemma evaluation_meets_only_Values_witness :
  let knowns : gmap string number := {[ "x" := Num 4 ]} in
  let simplArgs := [Var "x"; Value (Num 1)] in
  let simp : gmap string number → Expr → res Expr := fun _ e => Ok e in
  ((∃ sum product,
      Addition_evaluate simp knowns simplArgs = Ok (Value sum) ∧
      Multiplication_evaluate simp knowns simplArgs = Ok (Value product)) ∧
   (Addition_evaluate simp knowns simplArgs = Ok (Value NaN) ∧
    Multiplication_evaluate simp knowns simplArgs = Ok (Value NaN))) ∧
  ((Addition_simplify simp knowns simplArgs = Addition_evaluate simp knowns simplArgs ∧
    Multiplication_simplify simp knowns simplArgs
    = Multiplication_evaluate simp knowns simplArgs) ∧
   Forall (fun a =>
             (∀ fuel r, simplify fuel knowns a = Ok r → ∃ v, r = Value v) ∧
             (wellFormed a = true →
              ∃ v, ∀ fuel, (depth a ≤ fuel)%nat → simplify fuel knowns a = Ok (Value v)))
          simplArgs).
Proof.
  intros knowns simplArgs simp.
  pose proof (evaluation_meets_only_Values knowns simplArgs) as [Hread Hknown].
  split.
  - destruct (Hread simp simplArgs) as [Hreturns Hnan].
    + repeat constructor.
    + split; [exact Hreturns |]. apply Hnan. left. reflexivity.
  - assert (Hunk : existsb (hasUnknowns knowns) simplArgs = false)
      by (vm_compute; reflexivity).
    destruct (Hknown Hunk) as [Hbranch Hvalues]. split; [| exact Hvalues].
    assert (Hlen : (2 ≤ length simplArgs ≤ 200)%nat) by (simpl; lia).
    destruct (Hbranch simp simplArgs Hlen) as [Hadd Hmul].
    split; [apply Hadd | apply Hmul]; reflexivity.
Defined.

(** ** The bound on nested calls *)

Lemma le_res_refl {A : Type} (r : res A) : le_res r r.
Proof. right. reflexivity. Qed.

Lemma le_res_bind {A B : Type} (m m' : res A) (f f' : A → res B) :
  le_res m m' → (∀ a, le_res (f a) (f' a)) → le_res (m ≫= f) (m' ≫= f').
Proof.
  intros [-> | ->] Hf; [left; reflexivity |].
  destruct m'; simpl; [apply Hf | right; reflexivity | right; reflexivity].
Qed.

Lemma le_res_mapM {A B : Type} (f f' : A → res B) (l : list A) :
  (∀ x, le_res (f x) (f' x)) → le_res (mapM f l) (mapM f' l).
Proof.
  intros Hf. induction l as [|x l IH]; simpl; [apply le_res_refl |].
  apply le_res_bind; [apply Hf | intros y].
  apply le_res_bind; [exact IH | intros ys; apply le_res_refl].
Qed.

Lemma le_res_foldM {A B : Type} (f f' : B → A → res B) (l : list A) (acc : B) :
  (∀ acc x, le_res (f acc x) (f' acc x)) → le_res (foldM f l acc) (foldM f' l acc).
Proof.
  intros Hf. revert acc. induction l as [|x l IH]; intros acc; simpl;
    [apply le_res_refl |].
  apply le_res_bind; [apply Hf | intros acc'; apply IH].
Qed.

(** Steps that close a refinement between two runs of the same code. *)
Ltac le_res_step :=
  first
    [ apply le_res_refl
    | assumption
    | apply le_res_bind; [| intros ?]
    | apply le_res_mapM; intros ?
    | apply le_res_foldM; intros ? ?
    | match goal with
      | |- le_res (if ?b then _ else _) (if ?b then _ else _) => destruct b
      | |- le_res (match ?x with _ => _ end) (match ?x with _ => _ end) => destruct x
      | |- context [let '(_, _) := ?p in _] => destruct p
      end ].

Section Monotone.
Variables simp simp' : gmap string number → Expr → res Expr.
Hypothesis simp_le : ∀ knowns e, le_res (simp knowns e) (simp' knowns e).

Lemma Addition_split_loop_le (knowns : gmap string number)
    (self self' : Expr → res SplitFunction) (l : list Expr) :
  Forall (fun a => le_res (self a) (self' a)) l →
  ∀ num sym, le_res (Addition_split_loop simp knowns self l num sym)
                    (Addition_split_loop simp' knowns self' l num sym).
Proof.
  induction 1 as [|arg l Harg Hl IH]; intros num sym; simpl; [apply le_res_refl |].
  destruct arg; try apply IH; (apply le_res_bind; [| intros ?; apply IH]);
    first [apply simp_le | exact Harg].
Qed.

Lemma Multiplication_split_loop_le (knowns : gmap string number)
    (self self' : Expr → res SplitFunction) (l : list Expr) :
  Forall (fun a => le_res (self a) (self' a)) l →
  ∀ num sym, le_res (Multiplication_split_loop simp knowns self l num sym)
                    (Multiplication_split_loop simp' knowns self' l num sym).
Proof.
  induction 1 as [|arg l Harg Hl IH]; intros num sym; simpl; [apply le_res_refl |].
  destruct arg; try apply IH; (apply le_res_bind; [| intros ?; apply IH]);
    first [apply simp_le | exact Harg].
Qed.

Lemma split_le (knowns : gmap string number) (e : Expr) :
  le_res (split simp knowns e) (split simp' knowns e).
Proof.
  induction e as [v | name | args IH | args IH] using Expr_nested_ind; simpl.
  - apply le_res_refl.
  - apply le_res_refl.
  - apply Addition_split_loop_le. exact IH.
  - apply Multiplication_split_loop_le. exact IH.
Qed.

Lemma groupLikeTerms_le (knowns : gmap string number) (args : list Expr) :
  le_res (groupLikeTerms simp knowns args) (groupLikeTerms simp' knowns args).
Proof. unfold groupLikeTerms. repeat le_res_step. apply split_le. Qed.

Lemma Addition_simplify_le (knowns : gmap string number) (args : list Expr) :
  le_res (Addition_simplify simp knowns args) (Addition_simplify simp' knowns args).
Proof.
  unfold Addition_simplify, Addition_evaluate.
  repeat le_res_step; first [apply simp_le | apply split_le | apply groupLikeTerms_le].
Qed.

Lemma Multiplication_simplify_le (knowns : gmap string number) (args : list Expr) :
  le_res (Multiplication_simplify simp knowns args)
         (Multiplication_simplify simp' knowns args).
Proof.
  unfold Multiplication_simplify, Multiplication_evaluate.
  repeat le_res_step; first [apply simp_le | apply split_le].
Qed.
End Monotone.

Lemma simplify_S_le (fuel : nat) (knowns : gmap string number) (e : Expr) :
  le_res (simplify fuel knowns e) (simplify (S fuel) knowns e).
Proof.
  revert knowns e. induction fuel as [|fuel IH]; intros knowns e.
  - destruct e; simpl; first [apply le_res_refl | left; reflexivity].
  - destruct e; try apply le_res_refl.
    + apply Addition_simplify_le. exact IH.
    + apply Multiplication_simplify_le. exact IH.
Qed.

(** A result reached under one bound on nested calls is the result under
    every larger bound: only [OutOfFuel] depends on the bound. *)
Lemma simplify_fuel_mono (fuel fuel' : nat) (knowns : gmap string number) (e : Expr)
    (r : res Expr) :
  (fuel ≤ fuel')%nat → simplify fuel knowns e = r → r ≠ OutOfFuel →
  simplify fuel' knowns e = r.
Proof.
  intros Hle Hr Hne. induction Hle as [|fuel' Hle IH]; [exact Hr |].
  destruct (simplify_S_le fuel' knowns e) as [H | H]; congruence.
Qed.

(** ** Grouping by structural equality *)

Lemma number_eqb_eq (a b : number) : number_eqb a b = true ↔ a = b.
Proof.
  destruct a as [x|], b as [y|]; simpl; split; intros H;
    try discriminate; try reflexivity.
  - apply Z.eqb_eq in H. congruence.
  - injection H as ->. apply Z.eqb_refl.
Qed.

Lemma equals_Addition (xs ys : list Expr) :
  equals (Addition xs) (Addition ys) = equalsArray xs ys.
Proof. reflexivity. Qed.

Lemma equals_Multiplication (xs ys : list Expr) :
  equals (Multiplication xs) (Multiplication ys) = equalsArray xs ys.
Proof. reflexivity. Qed.

Lemma equalsArray_eq_Forall (xs : list Expr) :
  Forall (fun x => ∀ y, equals x y = true ↔ x = y) xs →
  ∀ ys, equalsArray xs ys = true ↔ xs = ys.
Proof.
  induction 1 as [|x xs Hx Hxs IH]; intros [|y ys]; simpl;
    try (split; [discriminate | intros H; discriminate H]);
    try (split; reflexivity).
  rewrite andb_true_iff, Hx, IH. split.
  - intros [-> ->]. reflexivity.
  - intros H. injection H as -> ->. split; reflexivity.
Qed.

(** [equals] decides equality of expressions. *)
Lemma equals_eq (a b : Expr) : equals a b = true ↔ a = b.
Proof.
  revert b. induction a as [v | name | args IH | args IH] using Expr_nested_ind;
    intros b; destruct b as [w | name' | args' | args'];
    try (split; [intros H; discriminate H | intros H; discriminate H]).
  - simpl. rewrite number_eqb_eq. split; congruence.
  - simpl. rewrite String.eqb_eq. split; congruence.
  - rewrite equals_Addition, (equalsArray_eq_Forall args IH). split; congruence.
  - rewrite equals_Multiplication, (equalsArray_eq_Forall args IH). split; congruence.
Qed.

Lemma equals_refl (a : Expr) : equals a a = true.
Proof. apply equals_eq. reflexivity. Qed.

Lemma HashMap_get_put (m : HashMap.t (K:=Expr) (V:=number)) (k k' : Expr) (v : number) :
  HashMap.get equals (HashMap.put equals m k v) k'
  = if equals k k' then Some v else HashMap.get equals m k'.
Proof.
  induction m as [|[k0 v0] m IH]; simpl.
  - reflexivity.
  - destruct (equals k0 k) eqn:E0; simpl.
    + apply equals_eq in E0. subst k0. destruct (equals k k'); reflexivity.
    + rewrite IH. destruct (equals k0 k') eqn:E1; [| reflexivity].
      apply equals_eq in E1. subst k0.
      destruct (equals k k') eqn:E2; [| reflexivity].
      apply equals_eq in E2. subst k'. rewrite equals_refl in E0. discriminate E0.
Qed.

Lemma countGroups_fold (l : list Expr) (m : HashMap.t (K:=Expr) (V:=number)) (e : Expr) :
  HashMap.get equals
    (fold_left
       (fun groups arg =>
          if negb (HashMap.has equals groups arg)
          then HashMap.put equals groups arg (Num 1)
          else
            let count := asNumber (HashMap.get equals groups arg) in
            HashMap.put equals groups arg (nadd count (Num 1)))
       l m) e
  = bump (HashMap.get equals m e) (occurrences e l).
Proof.
  revert m. induction l as [|a l IH]; intros m; [reflexivity |].
  cbn [fold_left occurrences]. rewrite IH. clear IH.
  unfold HashMap.has.
  destruct (equals a e) eqn:Eae.
  - apply equals_eq in Eae. subst a.
    destruct (HashMap.get equals m e) as [c|] eqn:Hget; cbn [negb asNumber];
      rewrite HashMap_get_put, equals_refl;
      destruct (occurrences e l) as [|n] eqn:Hocc; cbn [bump Nat.add];
      try reflexivity; f_equal; try rewrite <- nadd_assoc;
      cbn [nadd]; first [f_equal; lia | do 2 f_equal; lia].
  - destruct (HashMap.get equals m a) as [c|]; cbn [negb asNumber];
      rewrite HashMap_get_put, Eae; reflexivity.
Qed.

(** The counting loop of [Addition.simplify] maps each distinct expression of
    the residue to the number of its occurrences. *)
Lemma countGroups_counts (exprs : list Expr) (e : Expr) :
  HashMap.get equals (countGroups exprs) e
  = match occurrences e exprs with
    | O => None
    | S n => Some (Num (Z.of_nat (S n)))
    end.
Proof.
  unfold countGroups. rewrite countGroups_fold. simpl.
  destruct (occurrences e exprs); reflexivity.
Qed.

(** * Further properties *)

(** ** split flattens *)

Lemma nmul_assoc (a b c : number) : nmul a (nmul b c) = nmul (nmul a b) c.
Proof. destruct a, b, c; simpl; try reflexivity. f_equal. lia. Qed.

Lemma nmul_1_r (a : number) : nmul a (Num 1) = a.
Proof. destruct a; simpl; [f_equal; lia | reflexivity]. Qed.

Lemma nmul_1_l (a : number) : nmul (Num 1) a = a.
Proof. destruct a as [z|]; simpl; [f_equal; destruct z; reflexivity | reflexivity]. Qed.

Lemma mapM_app {A B : Type} (f : A → res B) (l1 l2 : list A) :
  mapM f (l1 ++ l2) = (r1 ← mapM f l1; r2 ← mapM f l2; Ok (r1 ++ r2)).
Proof.
  induction l1 as [|x l1 IH]; simpl.
  - destruct (mapM f l2); reflexivity.
  - destruct (f x) as [y| |]; simpl; try reflexivity.
    rewrite IH. destruct (mapM f l1) as [r1| |]; simpl; try reflexivity.
    destruct (mapM f l2); reflexivity.
Qed.

(** Folding a monoid operation from [acc] is folding it from the unit and
    combining. *)
Lemma fold_left_monoid (op : number → number → number) (unit : number) :
  (∀ a b c, op a (op b c) = op (op a b) c) →
  (∀ a, op a unit = a) → (∀ a, op unit a = a) →
  ∀ l acc, op acc (fold_left op l unit) = fold_left op l acc.
Proof.
  intros Hassoc Hr Hl. induction l as [|x l IH]; intros acc; simpl.
  - apply Hr.
  - rewrite Hl, <- (IH x), Hassoc, IH. reflexivity.
Qed.

Section SplitFlatten.
Variable simp : gmap string number → Expr → res Expr.
Variable knowns : gmap string number.

Lemma Addition_split_loop_flat (self : Expr → res SplitFunction)
    (leaves : Expr → list Expr) (consts : Expr → list number) (l : list Expr) :
  Forall (fun a => isAddition a = true →
            self a = flattened simp knowns (leaves a) (fold_left nadd (consts a) (Num 0))) l →
  ∀ num sym,
    Addition_split_loop simp knowns self l num sym
    = (rs ← mapM (simp knowns) (symbolicChildren_loop isAddition leaves l);
       Ok (mkSplit (sym ++ rs)
                   (fold_left nadd (constantChildren_loop isAddition consts l) num))).
Proof.
  induction 1 as [|arg l Harg Hl IH]; intros num sym; cbn -[nadd].
  - rewrite app_nil_r. reflexivity.
  - destruct arg as [v | name | args | args]; cbn -[nadd].
    + apply IH.
    + destruct (simp knowns (Var name)) as [s| |]; cbn -[nadd]; try reflexivity.
      rewrite IH. destruct (mapM _ _) as [rs| |]; cbn -[nadd]; try reflexivity.
      rewrite <- app_assoc. reflexivity.
    + rewrite (Harg eq_refl). unfold flattened. rewrite mapM_app.
      destruct (mapM (simp knowns) (leaves (Addition args))) as [r1| |];
        cbn -[nadd]; try reflexivity.
      rewrite IH. destruct (mapM _ _) as [rs| |]; cbn -[nadd]; try reflexivity.
      rewrite <- app_assoc, fold_left_app.
      rewrite (fold_left_monoid nadd (Num 0) nadd_assoc nadd_0_r nadd_0_l).
      reflexivity.
    + destruct (simp knowns (Multiplication args)) as [s| |]; cbn -[nadd];
        try reflexivity.
      rewrite IH. destruct (mapM _ _) as [rs| |]; cbn -[nadd]; try reflexivity.
      rewrite <- app_assoc. reflexivity.
Qed.

Lemma Multiplication_split_loop_flat (self : Expr → res SplitFunction)
    (leaves : Expr → list Expr) (consts : Expr → list number) (l : list Expr) :
  Forall (fun a => isMultiplication a = true →
            self a = flattened simp knowns (leaves a) (fold_left nmul (consts a) (Num 1))) l →
  ∀ num sym,
    Multiplication_split_loop simp knowns self l num sym
    = (rs ← mapM (simp knowns) (symbolicChildren_loop isMultiplication leaves l);
       Ok (mkSplit (sym ++ rs)
                   (fold_left nmul (constantChildren_loop isMultiplication consts l) num))).
Proof.
  induction 1 as [|arg l Harg Hl IH]; intros num sym; cbn -[nmul].
  - rewrite app_nil_r. reflexivity.
  - destruct arg as [v | name | args | args]; cbn -[nmul].
    + apply IH.
    + destruct (simp knowns (Var name)) as [s| |]; cbn -[nmul]; try reflexivity.
      rewrite IH. destruct (mapM _ _) as [rs| |]; cbn -[nmul]; try reflexivity.
      rewrite <- app_assoc. reflexivity.
    + destruct (simp knowns (Addition args)) as [s| |]; cbn -[nmul];
        try reflexivity.
      rewrite IH. destruct (mapM _ _) as [rs| |]; cbn -[nmul]; try reflexivity.
      rewrite <- app_assoc. reflexivity.
    + rewrite (Harg eq_refl). unfold flattened. rewrite mapM_app.
      destruct (mapM (simp knowns) (leaves (Multiplication args))) as [r1| |];
        cbn -[nmul]; try reflexivity.
      rewrite IH. destruct (mapM _ _) as [rs| |]; cbn -[nmul]; try reflexivity.
      rewrite <- app_assoc, fold_left_app.
      rewrite (fold_left_monoid nmul (Num 1) nmul_assoc nmul_1_r nmul_1_l).
      reflexivity.
Qed.

Lemma split_flat (e : Expr) :
  (isAddition e = true →
     split simp knowns e
     = flattened simp knowns (Addition_symbolicChildren e)
                 (fold_left nadd (Addition_constantChildren e) (Num 0))) ∧
  (isMultiplication e = true →
     split simp knowns e
     = flattened simp knowns (Multiplication_symbolicChildren e)
                 (fold_left nmul (Multiplication_constantChildren e) (Num 1))).
Proof.
  induction e as [v | name | args IH | args IH] using Expr_nested_ind;
    split; intros He; try discriminate He.
  - cbn -[nadd]. rewrite (Addition_split_loop_flat _ Addition_symbolicChildren
                            Addition_constantChildren).
    + unfold flattened. destruct (mapM _ _); reflexivity.
    + eapply Forall_impl; [exact IH |]. intros a [Ha _]. exact Ha.
  - cbn -[nmul]. rewrite (Multiplication_split_loop_flat _ Multiplication_symbolicChildren
                            Multiplication_constantChildren).
    + unfold flattened. destruct (mapM _ _); reflexivity.
    + eapply Forall_impl; [exact IH |]. intros a [_ Ha]. exact Ha.
Qed.
End SplitFlatten.

(** In the exact arithmetic of the embedding [Addition.split] flattens the
    sum: it simplifies, in order, the descendants reached through nested
    Additions that are neither a Constant nor an Addition, and its number is
    the sum, from 0, of the Constants reached the same way. *)
Lemma Addition_split_flattens (simp : gmap string number → Expr → res Expr)
    (knowns : gmap string number) (args : list Expr) :
  split simp knowns (Addition args)
  = (rs ← mapM (simp knowns) (Addition_symbolicChildren (Addition args));
     Ok (mkSplit rs (fold_left nadd (Addition_constantChildren (Addition args)) (Num 0)))).
Proof. apply (split_flat simp knowns (Addition args)). reflexivity. Qed.

(** In the exact arithmetic of the embedding [Multiplication.split] flattens
    the product in the same way, with the product, from 1, of the Constants. *)
Lemma Multiplication_split_flattens (simp : gmap string number → Expr → res Expr)
    (knowns : gmap string number) (args : list Expr) :
  split simp knowns (Multiplication args)
  = (rs ← mapM (simp knowns) (Multiplication_symbolicChildren (Multiplication args));
     Ok (mkSplit rs
           (fold_left nmul (Multiplication_constantChildren (Multiplication args)) (Num 1)))).
Proof. apply (split_flat simp knowns (Multiplication args)). reflexivity. Qed.

(** ** What simplify returns *)

Lemma foldM_ind {A B : Type} (P : list A → B → Prop) (f : B → A → res B)
    (l : list A) (acc r : B) :
  P [] acc →
  (∀ pre x acc acc', P pre acc → In x l → f acc x = Ok acc' → P (pre ++ [x]) acc') →
  foldM f l acc = Ok r → P l r.
Proof.
  intros Hinit Hstep.
  assert (Hgen : ∀ suf pre acc, (∀ x, In x suf → In x l) → P pre acc →
                   foldM f suf acc = Ok r → P (pre ++ suf) r).
  { induction suf as [|x suf IH]; intros pre acc0 Hin Hpre H; simpl in H.
    - injection H as <-. rewrite app_nil_r. exact Hpre.
    - destruct (f acc0 x) as [acc'| |] eqn:Hf; simpl in H; try discriminate.
      replace (pre ++ x :: suf) with ((pre ++ [x]) ++ suf)
        by (rewrite <- app_assoc; reflexivity).
      apply (IH _ acc'); [intros y Hy; apply Hin; right; exact Hy | | exact H].
      eapply Hstep; [exact Hpre | apply Hin; left; reflexivity | exact Hf]. }
  intros H. apply (Hgen l [] acc); [auto | exact Hinit | exact H].
Qed.

Lemma mapM_Ok_Forall {A B : Type} (f : A → res B) (Q : B → Prop)
    (l : list A) (l' : list B) :
  mapM f l = Ok l' → (∀ x y, f x = Ok y → Q y) → Forall Q l'.
Proof.
  intros H Hf. apply mapM_Ok_Forall2 in H.
  induction H as [|x y xs ys Hxy Hrest IH]; constructor; eauto.
Qed.

Lemma HashMap_keys_put {K V : Type} (eqb : K → K → bool) (Q : K → Prop)
    (m : HashMap.t (K:=K) (V:=V)) (k : K) (v : V) :
  Forall Q (HashMap.keys m) → Q k → Forall Q (HashMap.keys (HashMap.put eqb m k v)).
Proof.
  intros Hm Hk. induction m as [|[k0 v0] m IH]; simpl.
  - constructor; [exact Hk | constructor].
  - simpl in Hm. inversion Hm as [|? ? H0 Hrest]; subst.
    destruct (eqb k0 k); simpl; constructor; auto.
Qed.

Lemma forallb_Forall {A : Type} (f : A → bool) (l : list A) :
  forallb f l = true ↔ Forall (fun x => f x = true) l.
Proof.
  induction l as [|x l IH]; simpl.
  - split; [constructor | reflexivity].
  - rewrite andb_true_iff, IH. split.
    + intros [Hx Hl]. constructor; assumption.
    + intros H. inversion H; subst. split; assumption.
Qed.

Lemma wellFormed_operator (args : list Expr) :
  (2 ≤ length args ≤ MAX_ALLOWED_ARGS)%nat ∧ Forall (fun e => wellFormed e = true) args →
  wellFormed (Addition args) = true ∧ wellFormed (Multiplication args) = true.
Proof.
  intros [[Hlo Hhi] Hargs].
  assert (H : ((2 <=? length args)%nat && (length args <=? MAX_ALLOWED_ARGS)%nat
               && forallb wellFormed args = true)).
  { apply Nat.leb_le in Hlo, Hhi. rewrite Hlo, Hhi. apply forallb_Forall. exact Hargs. }
  split; exact H.
Qed.

Lemma new_Addition_wellFormed (args : list Expr) (r : Expr) :
  Forall (fun e => wellFormed e = true) args →
  new_Addition args = Ok r → wellFormed r = true.
Proof.
  intros Hargs H. unfold new_Addition, Function_new in H.
  destruct (length args <? 2)%nat eqn:Hlo; [discriminate |].
  destruct (MAX_ALLOWED_ARGS <? length args)%nat eqn:Hhi; [discriminate |].
  injection H as <-. apply wellFormed_operator.
  apply Nat.ltb_ge in Hlo, Hhi. split; [lia | exact Hargs].
Qed.

Lemma new_Multiplication_wellFormed (args : list Expr) (r : Expr) :
  Forall (fun e => wellFormed e = true) args →
  new_Multiplication args = Ok r → wellFormed r = true.
Proof.
  intros Hargs H. unfold new_Multiplication, Function_new in H.
  destruct (length args <? 2)%nat eqn:Hlo; [discriminate |].
  destruct (MAX_ALLOWED_ARGS <? length args)%nat eqn:Hhi; [discriminate |].
  injection H as <-. apply wellFormed_operator.
  apply Nat.ltb_ge in Hlo, Hhi. split; [lia | exact Hargs].
Qed.

Section ResultWellFormed.
Variable simp : gmap string number → Expr → res Expr.
Hypothesis simp_wf : ∀ knowns e r, simp knowns e = Ok r → wellFormed r = true.

Lemma Forall2_simp_wellFormed (knowns : gmap string number) (xs rs : list Expr) :
  Forall2 (fun x r => simp knowns x = Ok r) xs rs →
  Forall (fun e => wellFormed e = true) rs.
Proof. induction 1; constructor; eauto. Qed.

Lemma split_residue_wellFormed (knowns : gmap string number) (e : Expr)
    (sf : SplitFunction) :
  split simp knowns e = Ok sf → Forall (fun e => wellFormed e = true) (expressions sf).
Proof.
  intros H. destruct e as [v | name | args | args]; try discriminate H.
  - eapply Forall2_simp_wellFormed.
    exact (Addition_split_residue simp knowns (Addition args) sf eq_refl H).
  - eapply Forall2_simp_wellFormed.
    exact (Multiplication_split_residue simp knowns (Multiplication args) sf eq_refl H).
Qed.

Lemma groupLikeTerms_wellFormed (knowns : gmap string number) (args : list Expr)
    (r : Expr) :
  Forall (fun e => wellFormed e = true) args →
  groupLikeTerms simp knowns args = Ok r → wellFormed r = true.
Proof.
  intros Hargs H. unfold groupLikeTerms in H.
  destruct (foldM _ args _) as [[groups otherExprs]| |] eqn:Hfirst; simpl in H;
    try discriminate.
  apply (foldM_ind (fun _ '(g, o) =>
           Forall (Forall (fun e => wellFormed e = true)) (HashMap.keys g) ∧
           Forall (fun e => wellFormed e = true) o)) in Hfirst.
  - destruct Hfirst as [Hkeys Hother].
    destruct (foldM _ (HashMap.keys groups) _) as [exprsOut| |] eqn:Hsecond;
      simpl in H; try discriminate.
    apply (foldM_ind (fun _ out => Forall (fun e => wellFormed e = true) out))
      in Hsecond.
    + eapply new_Addition_wellFormed; [| exact H].
      apply Forall_app. split; assumption.
    + constructor.
    + intros pre entry out out' Hout Hin Hstep.
      assert (Hentry : Forall (fun e => wellFormed e = true) entry).
      { rewrite Forall_forall in Hkeys. apply Hkeys, list_elem_of_In, Hin. }
      destruct (HashMap.get equalsArray groups entry) as [value|]; try discriminate.
      destruct (number_eqb value ZERO); [injection Hstep as <-; exact Hout |].
      destruct (number_eqb value ONE).
      * destruct (new_Multiplication entry) as [m| |] eqn:Hm; simpl in Hstep;
          try discriminate.
        injection Hstep as <-. apply Forall_app. split; [exact Hout |].
        constructor; [| constructor].
        eapply new_Multiplication_wellFormed; [exact Hentry | exact Hm].
      * destruct (new_Multiplication (Value value :: entry)) as [m| |] eqn:Hm;
          simpl in Hstep; try discriminate.
        injection Hstep as <-. apply Forall_app. split; [exact Hout |].
        constructor; [| constructor].
        eapply new_Multiplication_wellFormed; [| exact Hm].
        constructor; [reflexivity | exact Hentry].
  - split; constructor.
  - intros pre arg [g o] [g' o'] [Hg Ho] Hin Hstep.
    destruct (isMultiplication arg).
    + destruct (split simp knowns arg) as [sf| |] eqn:Hsplit; simpl in Hstep;
        try discriminate.
      apply split_residue_wellFormed in Hsplit.
      destruct (negb (HashMap.has equalsArray g (expressions sf))).
      * injection Hstep as <- <-. split; [| exact Ho].
        apply HashMap_keys_put; assumption.
      * destruct (HashMap.get equalsArray g (expressions sf)); try discriminate.
        injection Hstep as <- <-. split; [| exact Ho].
        apply HashMap_keys_put; assumption.
    + injection Hstep as <- <-. split; [exact Hg |].
      apply Forall_app. split; [exact Ho |]. constructor; [| constructor].
      rewrite Forall_forall in Hargs. apply Hargs, list_elem_of_In, Hin.
Qed.

Lemma Addition_simplify_wellFormed (knowns : gmap string number) (args : list Expr)
    (r : Expr) :
  Addition_simplify simp knowns args = Ok r → wellFormed r = true.
Proof.
  unfold Addition_simplify. intros H.
  destruct (mapM _ args) as [simplArgs| |]; simpl in H; try discriminate.
  destruct (new_Addition simplArgs) as [simplAddition| |]; simpl in H; try discriminate.
  destruct (hasUnknowns knowns simplAddition); simpl in H.
  - destruct (split simp knowns simplAddition) as [splitArgs| |]; simpl in H;
      try discriminate.
    destruct (mapM _ (HashMap.keys _)) as [groupedArgs| |] eqn:Hgrouped; simpl in H;
      try discriminate.
    assert (Hwf : Forall (fun e => wellFormed e = true) groupedArgs).
    { clear H. eapply mapM_Ok_Forall; [exact Hgrouped |]. intros x y Hxy.
      simpl in Hxy. destruct (strict_eq _ _); eapply simp_wf; exact Hxy. }
    destruct (length groupedArgs =? 0)%nat; [injection H as <-; reflexivity |].
    destruct (new_Addition _) as [a| |] eqn:Hnew; simpl in H; try discriminate.
    apply new_Addition_Ok in Hnew. subst a.
    eapply groupLikeTerms_wellFormed; [| exact H].
    destruct (strict_eq (value splitArgs) (Num 0)); simpl; [exact Hwf |].
    apply Forall_app. split; [exact Hwf | constructor; [reflexivity | constructor]].
  - unfold Addition_evaluate in H.
    destruct (foldM _ simplArgs _) as [sum| |]; simpl in H; try discriminate.
    injection H as <-. reflexivity.
Qed.

Lemma Multiplication_simplify_wellFormed (knowns : gmap string number)
    (args : list Expr) (r : Expr) :
  Multiplication_simplify simp knowns args = Ok r → wellFormed r = true.
Proof.
  unfold Multiplication_simplify. intros H.
  destruct (mapM _ args) as [simplArgs| |]; simpl in H; try discriminate.
  destruct (new_Multiplication simplArgs) as [simplMult| |]; simpl in H;
    try discriminate.
  destruct (hasUnknowns knowns simplMult); simpl in H.
  - destruct (split simp knowns simplMult) as [splitArgs| |] eqn:Hsplit; simpl in H;
      try discriminate.
    apply split_residue_wellFormed in Hsplit.
    destruct (strict_eq (value splitArgs) (Num 0)); [injection H as <-; reflexivity |].
    destruct (expressions splitArgs) as [|e0 [|e1 rest]] eqn:Hexprs.
    + injection H as <-. reflexivity.
    + destruct (strict_eq _ _).
      * injection H as <-. inversion Hsplit; assumption.
      * eapply new_Multiplication_wellFormed; [| exact H].
        apply Forall_app. split; [exact Hsplit | constructor; [reflexivity | constructor]].
    + destruct (strict_eq _ _).
      * eapply new_Multiplication_wellFormed; [exact Hsplit | exact H].
      * eapply new_Multiplication_wellFormed; [| exact H].
        apply Forall_app. split; [exact Hsplit | constructor; [reflexivity | constructor]].
  - unfold Multiplication_evaluate in H.
    destruct (foldM _ simplArgs _) as [product| |]; simpl in H; try discriminate.
    injection H as <-. reflexivity.
Qed.
End ResultWellFormed.

(** X3: whatever [simplify] returns respects the arity of the operators:
    every Addition and every Multiplication in the returned expression has
    between 2 and 200 arguments. *)
Theorem simplify_wellFormed (fuel : nat) (knowns : gmap string number) (e r : Expr) :
  simplify fuel knowns e = Ok r → wellFormed r = true.
Proof.
  revert knowns e r. induction fuel as [|fuel IH]; intros knowns e r H;
    destruct e as [v | name | args | args]; simpl in H; try discriminate H.
  1, 3: injection H as <-; reflexivity.
  1, 2: unfold Variable_simplify in H; destruct (knowns !! name);
        injection H as <-; reflexivity.
  - eapply Addition_simplify_wellFormed; [exact IH | exact H].
  - eapply Multiplication_simplify_wellFormed; [exact IH | exact H].
Qed.

(** The sum [(x + x) + y] simplifies to [2 * x + y]. *)
Lemma simplify_wellFormed_witness :
  wellFormed (Addition [Multiplication [Value (Num 2); Var "x"]; Var "y"]) = true.
Proof.
  apply (simplify_wellFormed 3 ∅ (Addition [Addition [Var "x"; Var "x"]; Var "y"])).
  vm_compute. reflexivity.
Defined.

(** X4: [Addition.simplify] returns a Constant or an Addition, never a bare
    Variable or a Multiplication. *)
Theorem Addition_simplify_returns_sum (fuel : nat) (knowns : gmap string number)
    (args : list Expr) (r : Expr) :
  simplify fuel knowns (Addition args) = Ok r →
  isValue r = true ∨ isAddition r = true.
Proof.
  intros H. destruct fuel as [|fuel]; [discriminate H |].
  simpl in H. eapply Addition_simplify_class, H.
Qed.

(** The sum [x + y + x] simplifies to an Addition. *)
Lemma Addition_simplify_returns_sum_witness :
  isValue (Addition [Multiplication [Value (Num 2); Var "x"]; Var "y"]) = true ∨
  isAddition (Addition [Multiplication [Value (Num 2); Var "x"]; Var "y"]) = true.
Proof.
  apply (Addition_simplify_returns_sum 2 ∅ [Var "x"; Var "y"; Var "x"]).
  vm_compute. reflexivity.
Defined.

(** ** Grouping products *)

Section GroupLikeTerms.
Variable simp : gmap string number → Expr → res Expr.
Variable knowns : gmap string number.

(** X5: [Addition.groupLikeTerms] only rewrites the products: the arguments
    that are not Multiplications are kept as they are and in their order, after
    the regrouped products, and every regrouped term is a Multiplication. *)
Theorem groupLikeTerms_keeps_others (args : list Expr) (r : Expr) :
  groupLikeTerms simp knowns args = Ok r →
  ∃ products,
    r = Addition (products ++ List.filter (fun a => negb (isMultiplication a)) args) ∧
    Forall (fun p => isMultiplication p = true) products.
Proof.
  intros H. unfold groupLikeTerms in H.
  destruct (foldM _ args _) as [[groups otherExprs]| |] eqn:Hfirst; simpl in H;
    try discriminate.
  apply (foldM_ind (fun pre '(g, o) =>
           o = List.filter (fun a => negb (isMultiplication a)) pre)) in Hfirst.
  - destruct (foldM _ (HashMap.keys groups) _) as [exprsOut| |] eqn:Hsecond;
      simpl in H; try discriminate.
    apply (foldM_ind (fun _ out => Forall (fun p => isMultiplication p = true) out))
      in Hsecond.
    + apply new_Addition_Ok in H. exists exprsOut. subst. split; [reflexivity | exact Hsecond].
    + constructor.
    + intros pre entry out out' Hout Hin Hstep.
      destruct (HashMap.get equalsArray groups entry) as [value|]; try discriminate.
      destruct (number_eqb value ZERO); [injection Hstep as <-; exact Hout |].
      destruct (number_eqb value ONE);
        destruct (new_Multiplication _) as [m| |] eqn:Hm; simpl in Hstep;
        try discriminate; injection Hstep as <-;
        apply new_Multiplication_Ok in Hm; subst m;
        (apply Forall_app; split; [exact Hout | constructor; [reflexivity | constructor]]).
  - reflexivity.
  - intros pre arg [g o] [g' o'] Ho Hin Hstep. rewrite List.filter_app. simpl.
    destruct (isMultiplication arg); simpl.
    + destruct (split simp knowns arg) as [sf| |]; simpl in Hstep; try discriminate.
      rewrite app_nil_r.
      destruct (negb _); [injection Hstep as <- <-; exact Ho |].
      destruct (HashMap.get _ _ _); try discriminate.
      injection Hstep as <- <-. exact Ho.
    + injection Hstep as <- <-. rewrite Ho. reflexivity.
Qed.

Lemma foldM_pass {G A : Type} (f : G * list A → A → res (G * list A))
    (args : list A) (g : G) (o : list A) :
  (∀ g o a, In a args → f (g, o) a = Ok (g, o ++ [a])) →
  foldM f args (g, o) = Ok (g, o ++ args).
Proof.
  revert o. induction args as [|arg args IH]; intros o Hf; simpl.
  - rewrite app_nil_r. reflexivity.
  - rewrite Hf by (left; reflexivity). simpl.
    rewrite IH by (intros; apply Hf; right; assumption).
    rewrite <- app_assoc. reflexivity.
Qed.

(** Arguments that hold no Multiplication pass through the grouping loop. *)
Lemma groupLikeTerms_others_only (args : list Expr) :
  (∀ a, In a args → isMultiplication a = false) →
  groupLikeTerms simp knowns args = new_Addition args.
Proof.
  intros Hargs. unfold groupLikeTerms.
  rewrite foldM_pass; [reflexivity |].
  intros g o a Ha. rewrite (Hargs a Ha). reflexivity.
Qed.

(** X6: on arguments none of which is a Multiplication,
    [Addition.groupLikeTerms] regroups nothing: it returns the Addition of the
    same arguments (and throws the ArityError of the constructor when they are
    fewer than 2 or more than 200). *)
Theorem groupLikeTerms_without_products (args : list Expr) :
  forallb (fun a => negb (isMultiplication a)) args = true →
  groupLikeTerms simp knowns args = new_Addition args.
Proof.
  intros Hargs. unfold groupLikeTerms.
  rewrite foldM_pass; [reflexivity |].
  intros g o a Ha. rewrite forallb_forall in Hargs.
  apply Hargs, negb_true_iff in Ha. rewrite Ha. reflexivity.
Qed.
End GroupLikeTerms.

(** The sum [2 * x + y + 3 * x] is regrouped as [5 * x + y]. *)
Lemma groupLikeTerms_keeps_others_witness :
  ∃ products,
    Addition [Multiplication [Value (Num 5); Var "x"]; Var "y"]
    = Addition (products ++
                List.filter (fun a => negb (isMultiplication a))
                  [Multiplication [Var "x"; Value (Num 2)]; Var "y";
                   Multiplication [Var "x"; Value (Num 3)]]) ∧
    Forall (fun p => isMultiplication p = true) products.
Proof.
  apply (groupLikeTerms_keeps_others (simplify 1) ∅).
  vm_compute. reflexivity.
Defined.

(** The arguments [x], [y] and [7] are returned as their Addition. *)
Lemma groupLikeTerms_without_products_witness :
  groupLikeTerms (simplify 1) ∅ [Var "x"; Var "y"; Value (Num 7)]
  = new_Addition [Var "x"; Var "y"; Value (Num 7)].
Proof.
  apply (groupLikeTerms_without_products (simplify 1) ∅). reflexivity.
Defined.

(** ** Expressions without unknowns *)

Lemma fold_left_fold_right (op : number → number → number) (unit : number) :
  (∀ a b c, op a (op b c) = op (op a b) c) →
  (∀ a, op a unit = a) → (∀ a, op unit a = a) →
  ∀ l, fold_left op l unit = fold_right op unit l.
Proof.
  intros Hassoc Hr Hl. induction l as [|x l IH]; simpl; [reflexivity |].
  rewrite Hl, <- (fold_left_monoid op unit Hassoc Hr Hl l x), IH. reflexivity.
Qed.

Section KnownValue.
Variable knowns : gmap string number.

Lemma known_simplArgs_value (same : Expr → bool) (args : list Expr) :
  Forall (fun a => wellFormed a = true → hasUnknowns knowns a = false →
                   returnsValue knowns (depth a) a (knownValue knowns a)) args →
  forallb wellFormed args = true →
  existsb (hasUnknowns knowns) args = false →
  ∃ simplArgs,
    (∀ fuel, (maxDepth args ≤ fuel)%nat →
       mapM (fun arg => if same arg then Ok arg else simplify fuel knowns arg) args
       = Ok simplArgs) ∧
    Forall2 (fun a s => returnsValue knowns (maxDepth args) s (knownValue knowns a))
            args simplArgs ∧
    existsb (hasUnknowns knowns) simplArgs = false ∧
    length simplArgs = length args.
Proof.
  induction 1 as [|arg args Harg Hargs IH]; intros Hwf Hunk.
  - exists []. repeat split; constructor.
  - simpl in Hwf, Hunk. apply andb_true_iff in Hwf. destruct Hwf as [Hwf1 Hwf2].
    apply orb_false_iff in Hunk. destruct Hunk as [Hunk1 Hunk2].
    destruct (IH Hwf2 Hunk2) as [ss [Hmap [Hall [Hss Hlen]]]].
    specialize (Harg Hwf1 Hunk1).
    assert (Hrest : Forall2 (fun a s => returnsValue knowns (maxDepth (arg :: args)) s
                                          (knownValue knowns a)) args ss).
    { eapply Forall2_impl; [exact Hall |]. intros a s Hs.
      eapply returnsValue_le; [| exact Hs]. simpl. lia. }
    destruct (same arg) eqn:Hsame.
    + exists (arg :: ss). repeat split.
      * intros fuel Hfuel. simpl in *. rewrite Hsame. simpl.
        rewrite Hmap by lia. reflexivity.
      * constructor; [| exact Hrest].
        eapply returnsValue_le; [| exact Harg]. simpl. lia.
      * simpl. rewrite Hunk1, Hss. reflexivity.
      * simpl. rewrite Hlen. reflexivity.
    + exists (Value (knownValue knowns arg) :: ss). repeat split.
      * intros fuel Hfuel. simpl in *. rewrite Hsame.
        rewrite Harg by lia. simpl. rewrite Hmap by lia. reflexivity.
      * constructor; [| exact Hrest]. intros fuel _. apply simplify_Value.
      * simpl. exact Hss.
      * simpl. rewrite Hlen. reflexivity.
Qed.

Lemma known_foldM_value (d : nat) (op : number → number → number)
    (args simplArgs : list Expr) :
  Forall2 (fun a s => returnsValue knowns d s (knownValue knowns a)) args simplArgs →
  ∀ acc fuel, (d ≤ fuel)%nat →
    foldM (fun acc a => s ← simplify fuel knowns a; Ok (op acc (valueOf s))) simplArgs acc
    = Ok (fold_left op (map (knownValue knowns) args) acc).
Proof.
  induction 1 as [|a s args ss Hs Hrest IH]; intros acc fuel Hfuel; simpl.
  - reflexivity.
  - rewrite Hs by assumption. simpl. apply IH. assumption.
Qed.

Lemma simplify_known_returns (e : Expr) :
  wellFormed e = true → hasUnknowns knowns e = false →
  returnsValue knowns (depth e) e (knownValue knowns e).
Proof.
  induction e as [v | name | args IH | args IH] using Expr_nested_ind; intros Hwf Hunk.
  - intros fuel _. apply simplify_Value.
  - destruct (hasUnknowns_Var_false _ _ Hunk) as [v Hv].
    intros fuel _. rewrite simplify_Var. unfold Variable_simplify. simpl.
    rewrite Hv. reflexivity.
  - simpl in Hwf, Hunk. apply wellFormed_args in Hwf. destruct Hwf as [Hlen Hwf].
    destruct (known_simplArgs_value isAddition args IH Hwf Hunk)
      as [simplArgs [Hmap [Hall [Hss Hsl]]]].
    intros fuel Hfuel. simpl in Hfuel.
    destruct fuel as [|fuel]; [lia |].
    assert (Hd : (maxDepth args ≤ fuel)%nat) by (unfold maxDepth; lia).
    simpl. unfold Addition_simplify. rewrite (Hmap fuel Hd). simpl.
    unfold new_Addition. rewrite Function_new_Ok by (rewrite Hsl; exact Hlen).
    simpl. rewrite Hss. simpl. unfold Addition_evaluate.
    rewrite (known_foldM_value _ nadd _ _ Hall (Num 0) fuel Hd). reflexivity.
  - simpl in Hwf, Hunk. apply wellFormed_args in Hwf. destruct Hwf as [Hlen Hwf].
    destruct (known_simplArgs_value isMultiplication args IH Hwf Hunk)
      as [simplArgs [Hmap [Hall [Hss Hsl]]]].
    intros fuel Hfuel. simpl in Hfuel.
    destruct fuel as [|fuel]; [lia |].
    assert (Hd : (maxDepth args ≤ fuel)%nat) by (unfold maxDepth; lia).
    simpl. unfold Multiplication_simplify. rewrite (Hmap fuel Hd). simpl.
    unfold new_Multiplication. rewrite Function_new_Ok by (rewrite Hsl; exact Hlen).
    simpl. rewrite Hss. simpl. unfold Multiplication_evaluate.
    rewrite (known_foldM_value _ nmul _ _ Hall (Num 0) fuel Hd). reflexivity.
Qed.

(** On an expression without Multiplications and without unknowns, the number
    of the evaluation is the value of the expression. *)
Lemma knownValue_eval (env : string → number) (e : Expr) :
  agrees knowns env → multiplicationFree e = true → hasUnknowns knowns e = false →
  knownValue knowns e = eval env e.
Proof.
  intros Henv.
  induction e as [v | name | args IH | args IH] using Expr_nested_ind;
    intros Hfree Hunk; try discriminate Hfree.
  - reflexivity.
  - destruct (hasUnknowns_Var_false _ _ Hunk) as [v Hv]. simpl.
    rewrite Hv. simpl. symmetry. apply Henv. exact Hv.
  - simpl in *.
    rewrite (fold_left_fold_right nadd (Num 0) nadd_assoc nadd_0_r nadd_0_l).
    induction IH as [|a args Ha Hargs IHargs]; simpl; [reflexivity |].
    simpl in Hfree, Hunk. apply andb_true_iff in Hfree. destruct Hfree as [Hf1 Hf2].
    apply orb_false_iff in Hunk. destruct Hunk as [Hu1 Hu2].
    rewrite (Ha Hf1 Hu1), (IHargs Hf2 Hu2). reflexivity.
Qed.

End KnownValue.

(** In the exact arithmetic of the embedding, a well-formed expression in
    which every variable is known simplifies to the Constant of
    [knownValue]. *)
Lemma simplify_known_value (knowns : gmap string number) (e : Expr) (fuel : nat) :
  wellFormed e = true → hasUnknowns knowns e = false → (depth e ≤ fuel)%nat →
  simplify fuel knowns e = Ok (Value (knownValue knowns e)).
Proof. intros Hwf Hunk Hfuel. apply simplify_known_returns; assumption. Qed.

(** ** Constants and unknowns *)

Lemma mapM_fix {A : Type} (f : A → res A) (l : list A) :
  (∀ x, In x l → f x = Ok x) → mapM f l = Ok l.
Proof.
  induction l as [|x l IH]; intros Hf; simpl; [reflexivity |].
  rewrite Hf by (left; reflexivity). simpl.
  rewrite IH by (intros; apply Hf; right; assumption). reflexivity.
Qed.

Lemma new_Addition_arity (args : list Expr) :
  (2 ≤ length args ≤ 200)%nat → new_Addition args = Ok (Addition args).
Proof. intros Hlen. apply Function_new_Ok. exact Hlen. Qed.

Lemma new_Multiplication_arity (args : list Expr) :
  (2 ≤ length args ≤ 200)%nat → new_Multiplication args = Ok (Multiplication args).
Proof. intros Hlen. apply Function_new_Ok. exact Hlen. Qed.

Section Flat.
Variable knowns : gmap string number.

Lemma flatUnknown_simplify (fuel : nat) (a : Expr) :
  flatUnknown knowns a = true → simplify fuel knowns a = Ok a.
Proof.
  destruct a as [v | name | args | args]; intros H; try discriminate H.
  - apply simplify_Value.
  - rewrite simplify_Var. unfold Variable_simplify.
    simpl in H. apply bool_decide_eq_true in H. rewrite H. reflexivity.
Qed.

Lemma flatUnknown_class (a : Expr) :
  flatUnknown knowns a = true → isAddition a = false ∧ isMultiplication a = false.
Proof. destruct a; intros H; try discriminate H; split; reflexivity. Qed.

(** On a flat list the symbolic children are the elements that are not
    Constants, and they and the constants share out the list. *)
Lemma flat_children (same : Expr → bool) (leaves : Expr → list Expr)
    (consts : Expr → list number) (args : list Expr) :
  (∀ a, flatUnknown knowns a = true → same a = false) →
  forallb (flatUnknown knowns) args = true →
  Forall (fun x => flatUnknown knowns x = true ∧ isValue x = false)
         (symbolicChildren_loop same leaves args) ∧
  (length (symbolicChildren_loop same leaves args)
   + length (constantChildren_loop same consts args) = length args)%nat ∧
  (hasUnknowns knowns (Addition args) = true →
   symbolicChildren_loop same leaves args ≠ []).
Proof.
  intros Hsame. induction args as [|a args IH]; intros Hflat; simpl.
  - repeat split; [constructor | discriminate].
  - simpl in Hflat. apply andb_true_iff in Hflat. destruct Hflat as [Ha Hargs].
    destruct (IH Hargs) as [Hall [Hlen Hne]]. clear IH.
    pose proof (Hsame a Ha) as Hs.
    destruct a as [v | name | args' | args']; try discriminate Ha; simpl.
    + repeat split; [exact Hall | lia | exact Hne].
    + rewrite Hs. simpl. repeat split.
      * constructor; [split; [exact Ha | reflexivity] | exact Hall].
      * lia.
      * discriminate.
Qed.

Lemma flat_mapM_simplify (fuel : nat) (rs : list Expr) :
  Forall (fun x => flatUnknown knowns x = true ∧ isValue x = false) rs →
  mapM (simplify fuel knowns) rs = Ok rs.
Proof.
  intros Hall. apply mapM_fix. intros x Hx.
  rewrite Forall_forall in Hall. apply list_elem_of_In, Hall in Hx.
  apply flatUnknown_simplify, Hx.
Qed.

Lemma flat_simplArgs (fuel : nat) (same : Expr → bool) (args : list Expr) :
  forallb (flatUnknown knowns) args = true →
  mapM (fun arg => if same arg then Ok arg else simplify fuel knowns arg) args = Ok args.
Proof.
  intros Hflat. apply mapM_fix. intros x Hx.
  rewrite forallb_forall in Hflat. apply Hflat in Hx.
  destruct (same x); [reflexivity | apply flatUnknown_simplify, Hx].
Qed.

(** In the exact arithmetic of the embedding, a product of Constants and of
    unknown Variables is folded: the Constants are multiplied into one number
    [P] (from 1) and the Variables are kept in their order.  The result is
    [Constant(0)] when [P] is 0; the Variables alone when [P] is 1 (the single
    Variable itself when there is only one); otherwise the Multiplication of
    the Variables followed by [Constant(P)]. *)
Lemma Multiplication_simplify_flat (fuel : nat) (args : list Expr) :
  forallb (flatUnknown knowns) args = true →
  hasUnknowns knowns (Multiplication args) = true →
  (2 ≤ length args ≤ 200)%nat →
  simplify (S fuel) knowns (Multiplication args)
  = let P := fold_left nmul (Multiplication_constantChildren (Multiplication args))
                       (Num 1) in
    let R := Multiplication_symbolicChildren (Multiplication args) in
    Ok (if strict_eq P (Num 0) then Value ZERO
        else if strict_eq P (Num 1)
             then match R with [x] => x | _ => Multiplication R end
             else Multiplication (R ++ [Value P])).
Proof.
  intros Hflat Hunk Hlen.
  destruct (flat_children isMultiplication Multiplication_symbolicChildren
              Multiplication_constantChildren args
              (fun a Ha => proj2 (flatUnknown_class a Ha)) Hflat)
    as [Hall [Hsum Hne]].
  specialize (Hne Hunk).
  cbn [simplify]. unfold Multiplication_simplify.
  rewrite flat_simplArgs by exact Hflat. cbn [mbind res_bind].
  rewrite (new_Multiplication_arity args Hlen). cbn [mbind res_bind].
  rewrite Hunk. cbn [negb].
  rewrite Multiplication_split_flattens.
  cbn [Multiplication_symbolicChildren Multiplication_constantChildren] in *.
  rewrite flat_mapM_simplify by exact Hall. cbn [mbind res_bind expressions value].
  set (P := fold_left nmul _ (Num 1)) in *.
  set (R := symbolicChildren_loop _ _ args) in *.
  set (C := constantChildren_loop _ _ args) in *.
  cbv zeta.
  destruct (strict_eq P (Num 0)); [reflexivity |].
  assert (HC : strict_eq P (Num 1) = false → (length R < length args)%nat).
  { intros HP. destruct C as [|c C'] eqn:HCeq; [| simpl in Hsum; lia].
    subst P. simpl in HP. discriminate. }
  destruct R as [|e0 [|e1 rest]] eqn:HR; [contradiction | |].
  - destruct (strict_eq P (Num 1)); [reflexivity |].
    rewrite new_Multiplication_arity; [reflexivity | simpl; lia].
  - destruct (strict_eq P (Num 1)) eqn:HP.
    + rewrite new_Multiplication_arity; [reflexivity | simpl in *; lia].
    + specialize (HC eq_refl).
      rewrite new_Multiplication_arity; [reflexivity |].
      rewrite length_app. simpl in *. lia.
Qed.
Lemma HashMap_keys_put_absent (m : HashMap.t (K:=Expr) (V:=number)) (k : Expr)
    (v : number) :
  HashMap.get equals m k = None →
  HashMap.keys (HashMap.put equals m k v) = HashMap.keys m ++ [k].
Proof.
  induction m as [|[k0 v0] m IH]; simpl; intros H; [reflexivity |].
  destruct (equals k0 k); [discriminate |]. simpl. rewrite IH by exact H. reflexivity.
Qed.

(** On a residue without repetition the counting loop keeps the order and
    counts one occurrence of each expression. *)
Lemma countGroups_keys_fold (l : list Expr) (m : HashMap.t (K:=Expr) (V:=number)) :
  NoDup l → (∀ e, e ∈ l → HashMap.get equals m e = None) →
  HashMap.keys
    (fold_left
       (fun groups arg =>
          if negb (HashMap.has equals groups arg)
          then HashMap.put equals groups arg (Num 1)
          else
            let count := asNumber (HashMap.get equals groups arg) in
            HashMap.put equals groups arg (nadd count (Num 1)))
       l m)
  = HashMap.keys m ++ l.
Proof.
  intros Hnd. revert m. induction Hnd as [|a l Ha Hnd IH]; intros m Hm;
    cbn [fold_left].
  - rewrite app_nil_r. reflexivity.
  - assert (Hhas : HashMap.has equals m a = false)
      by (unfold HashMap.has; rewrite (Hm a) by (left); reflexivity).
    rewrite Hhas. cbn [negb].
    rewrite IH.
    + rewrite HashMap_keys_put_absent by (apply Hm; left).
      rewrite <- app_assoc. reflexivity.
    + intros e He. rewrite HashMap_get_put.
      destruct (equals a e) eqn:Eae.
      * apply equals_eq in Eae. subst e. contradiction.
      * apply Hm. right. exact He.
Qed.

Lemma countGroups_NoDup (l : list Expr) :
  NoDup l →
  HashMap.keys (countGroups l) = l ∧
  ∀ e, e ∈ l → HashMap.get equals (countGroups l) e = Some (Num 1).
Proof.
  intros Hnd. split.
  - unfold countGroups. rewrite countGroups_keys_fold; [reflexivity | exact Hnd |].
    intros e _. reflexivity.
  - intros e He. rewrite countGroups_counts.
    assert (Hocc : occurrences e l = 1%nat); [| rewrite Hocc; reflexivity].
    clear -Hnd He. induction Hnd as [|a l Ha Hnd IH]; [inversion He |].
    simpl. destruct (equals a e) eqn:Eae.
    + apply equals_eq in Eae. subst a.
      assert (Hz : occurrences e l = 0%nat); [| rewrite Hz; reflexivity].
      clear -Ha. induction l as [|b l IHl]; [reflexivity |]. simpl.
      destruct (equals b e) eqn:Ebe.
      * apply equals_eq in Ebe. subst b. exfalso. apply Ha. left.
      * apply IHl. intros Hin. apply Ha. right. exact Hin.
    + apply IH. inversion He; subst; [| assumption].
      rewrite equals_refl in Eae. discriminate.
Qed.

(** In the exact arithmetic of the embedding and with the keys of the
    grouping map in the order of their first [put], a sum of Constants and of
    unknown Variables that are all different is folded: the Constants are
    added into one number [N] (from 0), the Variables are kept in their order,
    and [Constant(N)] follows them unless [N] is 0. *)
Lemma Addition_simplify_flat (fuel : nat) (args : list Expr) :
  forallb (flatUnknown knowns) args = true →
  hasUnknowns knowns (Addition args) = true →
  NoDup (Addition_symbolicChildren (Addition args)) →
  (2 ≤ length args ≤ 200)%nat →
  simplify (S fuel) knowns (Addition args)
  = let N := fold_left nadd (Addition_constantChildren (Addition args)) (Num 0) in
    let R := Addition_symbolicChildren (Addition args) in
    new_Addition (R ++ if strict_eq N (Num 0) then [] else [Value N]).
Proof.
  intros Hflat Hunk Hnd Hlen.
  destruct (flat_children isAddition Addition_symbolicChildren
              Addition_constantChildren args
              (fun a Ha => proj1 (flatUnknown_class a Ha)) Hflat)
    as [Hall [Hsum Hne]].
  specialize (Hne Hunk).
  cbn [simplify]. unfold Addition_simplify.
  rewrite flat_simplArgs by exact Hflat. cbn [mbind res_bind].
  rewrite (new_Addition_arity args Hlen). cbn [mbind res_bind].
  rewrite Hunk. cbn [negb].
  rewrite Addition_split_flattens.
  cbn [Addition_symbolicChildren Addition_constantChildren] in *.
  rewrite flat_mapM_simplify by exact Hall. cbn [mbind res_bind expressions value].
  set (N := fold_left nadd _ (Num 0)) in *.
  set (R := symbolicChildren_loop _ _ args) in *.
  cbv zeta.
  destruct (countGroups_NoDup R Hnd) as [Hkeys Hget].
  rewrite Hkeys.
  rewrite mapM_fix.
  - cbn [mbind res_bind].
    destruct R as [|e0 R'] eqn:HR; [contradiction |]. cbn [length Nat.eqb].
    rewrite <- HR in *.
    assert (Hother : ∀ tail, forallb (fun a => negb (isMultiplication a)) tail = true →
              forallb (fun a => negb (isMultiplication a)) (R ++ tail) = true).
    { intros tail Htail. rewrite forallb_app, Htail, andb_true_r.
      apply forallb_forall. intros x Hx.
      rewrite Forall_forall in Hall. apply list_elem_of_In, Hall in Hx.
      destruct Hx as [Hx _]. apply flatUnknown_class in Hx. destruct Hx as [_ ->].
      reflexivity. }
    destruct (strict_eq N (Num 0)); cbn [negb].
    + rewrite app_nil_r.
      destruct (new_Addition R) as [a| |] eqn:Hnew; cbn [mbind res_bind];
        try reflexivity.
      apply new_Addition_Ok in Hnew as Ha. subst a.
      rewrite groupLikeTerms_others_only; [exact Hnew |].
      intros x Hx. specialize (Hother [] eq_refl). rewrite app_nil_r in Hother.
      rewrite forallb_forall in Hother. apply negb_true_iff, Hother, Hx.
    + destruct (new_Addition (R ++ [Value N])) as [a| |] eqn:Hnew;
        cbn [mbind res_bind]; try reflexivity.
      apply new_Addition_Ok in Hnew as Ha. subst a.
      rewrite groupLikeTerms_others_only; [exact Hnew |].
      intros x Hx. specialize (Hother [Value N] eq_refl).
      rewrite forallb_forall in Hother. apply negb_true_iff, Hother, Hx.
  - intros x Hx. apply list_elem_of_In in Hx.
    rewrite (Hget x Hx). cbn [asNumber strict_eq Z.eqb Pos.eqb].
    rewrite Forall_forall in Hall. apply flatUnknown_simplify, Hall, Hx.
Qed.
End Flat.

(** ** derivative on constructible expressions *)

Section DerivativeWellFormed.
Variable Value_derivative : number → string → Expr.
Variable Variable_derivative : string → string → Expr.
Hypothesis Value_derivative_wf : ∀ v x, wellFormed (Value_derivative v x) = true.
Hypothesis Variable_derivative_wf : ∀ name x, wellFormed (Variable_derivative name x) = true.

Lemma operands_wellFormed (n i : nat) (d a : Expr) :
  wellFormed d = true → wellFormed a = true →
  Forall (fun e => wellFormed e = true) (operands n i d a).
Proof.
  intros Hd Ha. unfold operands. apply Forall_forall. intros e He.
  apply list_elem_of_fmap in He. destruct He as [j [-> _]].
  destruct (j =? i)%nat; assumption.
Qed.

Lemma Multiplication_derivative_loop_wellFormed (self : Expr → res Expr) (n : nat)
    (l : list Expr) :
  (2 ≤ n ≤ 200)%nat →
  Forall (fun a => wellFormed a = true ∧ ∃ d, self a = Ok d ∧ wellFormed d = true) l →
  ∀ i, ∃ terms,
    Multiplication_derivative_loop self n l i = Ok terms ∧
    length terms = length l ∧
    Forall (fun e => wellFormed e = true) terms ∧
    Forall (fun t => ∃ ops, t = Multiplication ops ∧ length ops = n) terms.
Proof.
  intros Hn. induction 1 as [|a l [Ha [d [Hd Hdwf]]] Hl IH]; intros i; simpl.
  - exists []. repeat split; constructor.
  - rewrite Hd. simpl. unfold multiply.
    rewrite new_Multiplication_arity by (rewrite operands_length; exact Hn). simpl.
    destruct (IH (S i)) as [terms [-> [Hlen [Hwf Hshape]]]]. simpl.
    eexists. split; [reflexivity |]. split; [simpl; lia |]. split.
    + constructor; [| exact Hwf].
      apply wellFormed_operator. split.
      * rewrite operands_length. exact Hn.
      * apply operands_wellFormed; assumption.
    + constructor; [| exact Hshape].
      eexists. split; [reflexivity | apply operands_length].
Qed.

(** X12: [derivative] never fails on a constructible expression and returns
    a constructible one: for a sum of [n] terms the Addition of the [n]
    derivatives of the terms, and for a product of [n] factors an Addition of
    [n] Multiplications of [n] operands each. *)
Theorem derivative_wellFormed (variable : string) (e : Expr) :
  wellFormed e = true →
  ∃ r, derivative Value_derivative Variable_derivative variable e = Ok r ∧
       wellFormed r = true ∧
       match e with
       | Addition args =>
           ∃ derivs,
             r = Addition derivs ∧
             Forall2 (fun a d => derivative Value_derivative Variable_derivative
                                   variable a = Ok d) args derivs
       | Multiplication args =>
           ∃ terms,
             r = Addition terms ∧ length terms = length args ∧
             Forall (fun t => ∃ ops, t = Multiplication ops ∧
                                     length ops = length args) terms
       | _ => True
       end.
Proof.
  induction e as [v | name | args IH | args IH] using Expr_nested_ind; intros Hwf.
  - eexists. split; [reflexivity |]. split; [apply Value_derivative_wf | exact I].
  - eexists. split; [reflexivity |]. split; [apply Variable_derivative_wf | exact I].
  - simpl in Hwf. apply wellFormed_args in Hwf. destruct Hwf as [Hlen Hwf].
    apply forallb_Forall in Hwf.
    assert (Hmap : ∃ ds, mapM (derivative Value_derivative Variable_derivative variable)
                              args = Ok ds ∧
                         length ds = length args ∧
                         Forall (fun e => wellFormed e = true) ds).
    { clear Hlen. induction IH as [|a args Ha Hargs IHargs].
      - exists []. repeat split; constructor.
      - inversion Hwf as [|? ? Hwa Hwargs]; subst.
        destruct (Ha Hwa) as [d [Hd [Hdwf _]]].
        destruct (IHargs Hwargs) as [ds [Hds [Hlen Hall]]].
        exists (d :: ds). simpl. rewrite Hd. simpl. rewrite Hds. simpl.
        repeat split; [lia | constructor; assumption]. }
    destruct Hmap as [ds [Hds [Hlen' Hall]]].
    exists (Addition ds). simpl. rewrite Hds. simpl.
    unfold MAX_ALLOWED_ARGS in Hlen.
    rewrite new_Addition_arity by lia. split; [reflexivity |]. split.
    + apply wellFormed_operator. split; [unfold MAX_ALLOWED_ARGS; lia | exact Hall].
    + exists ds. split; [reflexivity |]. apply mapM_Ok_Forall2. exact Hds.
  - simpl in Hwf. apply wellFormed_args in Hwf. destruct Hwf as [Hlen Hwf].
    apply forallb_Forall in Hwf. unfold MAX_ALLOWED_ARGS in Hlen.
    destruct (Multiplication_derivative_loop_wellFormed
                (derivative Value_derivative Variable_derivative variable)
                (length args) args Hlen) with (i := 0%nat)
      as [terms [Hterms [Hlen' [Hall Hshape]]]].
    { clear Hlen. induction IH as [|a args Ha Hargs IHargs]; [constructor |].
      inversion Hwf as [|? ? Hwa Hwargs]; subst.
      constructor; [| apply IHargs; exact Hwargs].
      split; [exact Hwa |]. destruct (Ha Hwa) as [d [Hd [Hdwf _]]]. eauto. }
    exists (Addition terms). simpl. rewrite Hterms. simpl. unfold plus.
    rewrite new_Addition_arity by lia. split; [reflexivity |]. split.
    + apply wellFormed_operator. split; [unfold MAX_ALLOWED_ARGS; lia | exact Hall].
    + exists terms. repeat split; assumption.
Qed.
End DerivativeWellFormed.

(** The derivative of [(x + 1) * y] when every leaf has the derivative 0. *)
Lemma derivative_wellFormed_witness :
  ∃ r, derivative (fun _ _ => Value ZERO) (fun _ _ => Value ZERO) "x"
         (Multiplication [Addition [Var "x"; Value (Num 1)]; Var "y"]) = Ok r ∧
       wellFormed r = true ∧
       ∃ terms,
         r = Addition terms ∧ length terms = 2%nat ∧
         Forall (fun t => ∃ ops, t = Multiplication ops ∧ length ops = 2%nat) terms.
Proof.
  apply (derivative_wellFormed (fun _ _ => Value ZERO) (fun _ _ => Value ZERO)
           (fun _ _ => eq_refl) (fun _ _ => eq_refl) "x"
           (Multiplication [Addition [Var "x"; Value (Num 1)]; Var "y"])).
  reflexivity.
Defined.

(** X13: what [Multiplication.derivative] returns for [n] factors: an
    Addition of [n] products, where product [i] has [n] operands, the
    derivative of factor [i] at index [i] and factor [i] itself at every other
    index. *)
Theorem Multiplication_derivative_shape (Value_derivative : number → string → Expr)
    (Variable_derivative : string → string → Expr) (variable : string)
    (args : list Expr) (r : Expr) :
  derivative Value_derivative Variable_derivative variable (Multiplication args) = Ok r →
  ∃ terms,
    r = Addition terms ∧ length terms = length args ∧
    ∀ i a, args !! i = Some a →
      ∃ d, derivative Value_derivative Variable_derivative variable a = Ok d ∧
           terms !! i = Some (Multiplication (<[i := d]> (replicate (length args) a))).
Proof.
  intros H.
  assert (Hr : ∃ terms, r = Addition terms).
  { simpl in H. destruct (Multiplication_derivative_loop _ _ _ _) as [ts| |];
      simpl in H; try discriminate.
    apply new_Addition_Ok in H. eauto. }
  destruct Hr as [terms ->]. exists terms. split; [reflexivity |].
  pose proof (Multiplication_derivative_terms _ _ _ _ _ H) as Hterms.
  split; [| exact Hterms].
  destruct (Nat.lt_trichotomy (length terms) (length args)) as [Hlt | [Heq | Hgt]];
    [| exact Heq |].
  - destruct (lookup_lt_is_Some_2 args (length terms) Hlt) as [a Ha].
    destruct (Hterms _ _ Ha) as [d [_ Hd]].
    apply lookup_lt_Some in Hd. lia.
  - exfalso. simpl in H.
    destruct (Multiplication_derivative_loop _ _ _ _) as [ts| |] eqn:Hloop;
      simpl in H; try discriminate.
    apply new_Addition_Ok in H. injection H as ->.
    assert (Hlen : ∀ self n l i ts,
              Multiplication_derivative_loop self n l i = Ok ts → length ts = length l).
    { clear. intros self n l. induction l as [|a l IH]; intros i ts H; simpl in H.
      - injection H as <-. reflexivity.
      - destruct (self a); simpl in H; try discriminate.
        destruct (multiply _); simpl in H; try discriminate.
        destruct (Multiplication_derivative_loop self n l (S i)) eqn:Hl; simpl in H;
          try discriminate.
        injection H as <-. simpl. f_equal. eapply IH, Hl. }
    apply Hlen in Hloop. lia.
Qed.

(** The derivative of [x * y * z]. *)
Lemma Multiplication_derivative_shape_witness :
  ∃ terms,
    Addition [Multiplication [Value ONE; Var "x"; Var "x"];
              Multiplication [Var "y"; Value ZERO; Var "y"];
              Multiplication [Var "z"; Var "z"; Value ZERO]] = Addition terms ∧
    length terms = length [Var "x"; Var "y"; Var "z"] ∧
    ∀ i a, [Var "x"; Var "y"; Var "z"] !! i = Some a →
      ∃ d, derivative (fun _ _ => Value ZERO)
             (fun name x => if String.eqb name x then Value ONE else Value ZERO) "x" a
           = Ok d ∧
           terms !! i
           = Some (Multiplication
                     (<[i := d]> (replicate (length [Var "x"; Var "y"; Var "z"]) a))).
Proof.
  apply (Multiplication_derivative_shape (fun _ _ => Value ZERO)
           (fun name x => if String.eqb name x then Value ONE else Value ZERO) "x"
           [Var "x"; Var "y"; Var "z"]).
  reflexivity.
Defined.

(** ** toString *)

Lemma string_app_assoc (s1 s2 s3 : string) : (s1 +:+ s2) +:+ s3 = s1 +:+ (s2 +:+ s3).
Proof.
  induction s1 as [|c s1 IH]; [reflexivity |].
  change (String c ((s1 +:+ s2) +:+ s3) = String c (s1 +:+ (s2 +:+ s3))).
  rewrite IH. reflexivity.
Qed.

Lemma concat_cons (sep s : string) (t : string) (l : list string) :
  String.concat sep (s :: t :: l) = s +:+ sep +:+ String.concat sep (t :: l).
Proof. reflexivity. Qed.

Section ToStringFacts.
Variable Value_toString : number → string.
Variable Variable_toString : string → string.

(** The loop appends to [out] the separator and the rendering of each
    remaining argument. *)
Lemma toString_loop_join (sep : string) (self : Expr → res string)
    (l : list Expr) (strs : list string) :
  Forall2 (fun a s => self a = Ok s) l strs →
  ∀ s0 pre,
    toString_loop sep self l (pre +:+ s0)
    = Ok (pre +:+ String.concat sep (s0 :: strs)).
Proof.
  induction 1 as [|a s l strs Hs Hrest IH]; intros s0 pre; cbn [toString_loop].
  - reflexivity.
  - rewrite Hs. cbn [mbind res_bind].
    rewrite (IH s ((pre +:+ s0) +:+ sep)).
    rewrite concat_cons, !string_app_assoc. reflexivity.
Qed.

(** Both operators render a non-empty argument list whose arguments render. *)
Lemma toString_operator_Ok (args : list Expr) (strs : list string) :
  Forall2 (fun a s => toString Value_toString Variable_toString a = Ok s) args strs →
  args ≠ [] →
  (∃ s, toString Value_toString Variable_toString (Addition args) = Ok s) ∧
  (∃ s, toString Value_toString Variable_toString (Multiplication args) = Ok s).
Proof.
  intros Hall Hne. destruct Hall as [|a s args strs Hs Hrest]; [contradiction |].
  split; cbn [toString]; rewrite Hs; cbn [mbind res_bind];
    rewrite (toString_loop_join _ _ _ _ Hrest s "("); cbn [mbind res_bind];
    eexists; reflexivity.
Qed.

(** X14: [Addition.toString] and [Multiplication.toString] render the
    arguments in order, joined by [" + "] or [" * "] and wrapped in one pair of
    parentheses; on an empty argument list they throw. *)
Theorem toString_join (args : list Expr) (strs : list string) :
  Forall2 (fun a s => toString Value_toString Variable_toString a = Ok s) args strs →
  toString Value_toString Variable_toString (Addition args)
  = (if decide (args = []) then Throw TypeError
     else Ok ("(" +:+ String.concat " + " strs +:+ ")")) ∧
  toString Value_toString Variable_toString (Multiplication args)
  = (if decide (args = []) then Throw TypeError
     else Ok ("(" +:+ String.concat " * " strs +:+ ")")).
Proof.
  intros Hall. destruct Hall as [|a s args strs Hs Hrest]; [split; reflexivity |].
  split; cbn [toString]; rewrite Hs; cbn [mbind res_bind];
    rewrite (toString_loop_join _ _ _ _ Hrest s "("); cbn [mbind res_bind];
    rewrite string_app_assoc; reflexivity.
Qed.

(** X15: [toString] returns on every constructible expression. *)
Theorem toString_wellFormed (e : Expr) :
  wellFormed e = true → ∃ s, toString Value_toString Variable_toString e = Ok s.
Proof.
  induction e as [v | name | args IH | args IH] using Expr_nested_ind; intros Hwf;
    try (eexists; reflexivity);
    simpl in Hwf; apply wellFormed_args in Hwf; destruct Hwf as [Hlen Hwf];
    apply forallb_Forall in Hwf;
    assert (Hstrs : ∃ strs, Forall2 (fun a s => toString Value_toString
                                                  Variable_toString a = Ok s) args strs)
      by (clear Hlen; induction IH as [|a args Ha Hargs IHargs];
          [exists []; constructor |];
          inversion Hwf as [|? ? Hwa Hwargs]; subst;
          destruct (Ha Hwa) as [s Hs]; destruct (IHargs Hwargs) as [strs Hstrs];
          exists (s :: strs); constructor; assumption);
    destruct Hstrs as [strs Hstrs];
    (destruct (toString_operator_Ok args strs Hstrs) as [Hadd Hmul];
       [intros ->; simpl in Hlen; lia |]); assumption.
Qed.
End ToStringFacts.

(** The rendering of [x + 2 * y] with constants shown as ["c"]. *)
Lemma toString_join_witness :
  let e := [Var "x"; Multiplication [Value (Num 2); Var "y"]] in
  toString (fun _ => "c") (fun name => name) (Addition e)
  = (if decide (e = []) then Throw TypeError
     else Ok ("(" +:+ String.concat " + " ["x"; "(c * y)"] +:+ ")")) ∧
  toString (fun _ => "c") (fun name => name) (Multiplication e)
  = (if decide (e = []) then Throw TypeError
     else Ok ("(" +:+ String.concat " * " ["x"; "(c * y)"] +:+ ")")).
Proof.
  intros e.
  apply (toString_join (fun _ => "c") (fun name => name) e ["x"; "(c * y)"]).
  repeat constructor.
Defined.

(** The rendering of [x + 2 * y] exists. *)
Lemma toString_wellFormed_witness :
  ∃ s, toString (fun _ => "c") (fun name => name)
         (Addition [Var "x"; Multiplication [Value (Num 2); Var "y"]]) = Ok s.
Proof.
  apply (toString_wellFormed (fun _ => "c") (fun name => name)). reflexivity.
Defined.

(** ** Where a second simplification changes nothing *)

(** X16: on an expression in which every variable is known, simplifying the
    result once more returns it unchanged. *)
Theorem simplify_known_idempotent (fuel fuel' : nat) (knowns : gmap string number)
    (e r : Expr) :
  hasUnknowns knowns e = false → simplify fuel knowns e = Ok r →
  simplify fuel' knowns r = Ok r.
Proof.
  intros Hunk H. destruct (simplify_known_Value fuel knowns e r Hunk H) as [v ->].
  apply simplify_Value.
Qed.

(** The sum [x + (x + 1)] under [x = 4] gives 9, and 9 again. *)
Lemma simplify_known_idempotent_witness :
  simplify 0 {[ "x" := Num 4 ]} (Value (Num 9)) = Ok (Value (Num 9)).
Proof.
  apply (simplify_known_idempotent 2 0 {[ "x" := Num 4 ]}
           (Addition [Var "x"; Addition [Var "x"; Value (Num 1)]])).
  - vm_compute. reflexivity.
  - vm_compute. reflexivity.
Defined.

Section FlatIdempotent.
Variable knowns : gmap string number.

Lemma flat_residue_children (same : Expr → bool) (leaves : Expr → list Expr)
    (consts : Expr → list number) (R : list Expr) (vs : list number) :
  (∀ a, flatUnknown knowns a = true → same a = false) →
  Forall (fun x => flatUnknown knowns x = true ∧ isValue x = false) R →
  symbolicChildren_loop same leaves (R ++ map Value vs) = R ∧
  constantChildren_loop same consts (R ++ map Value vs) = vs.
Proof.
  intros Hsame. induction 1 as [|x R [Hx Hv] HR IH]; simpl.
  - induction vs as [|v vs IHvs]; simpl; [split; reflexivity |].
    destruct IHvs as [-> ->]. split; reflexivity.
  - destruct IH as [-> ->]. pose proof (Hsame x Hx) as Hs.
    destruct x; try discriminate; simpl in *; rewrite ?Hs; split; reflexivity.
Qed.

Lemma flat_residue_flat (R : list Expr) (vs : list number) :
  Forall (fun x => flatUnknown knowns x = true ∧ isValue x = false) R →
  forallb (flatUnknown knowns) (R ++ map Value vs) = true.
Proof.
  intros HR. rewrite forallb_app. apply andb_true_iff. split.
  - apply forallb_Forall. eapply Forall_impl; [exact HR |]. intros x [Hx _]. exact Hx.
  - induction vs; simpl; auto.
Qed.

Lemma flat_residue_unknown (R tail : list Expr) :
  Forall (fun x => flatUnknown knowns x = true ∧ isValue x = false) R → R ≠ [] →
  existsb (hasUnknowns knowns) (R ++ tail) = true.
Proof.
  intros HR Hne. destruct HR as [|x R [Hx Hv] HR]; [contradiction |].
  simpl. destruct x; try discriminate. simpl in *. rewrite Hx. reflexivity.
Qed.

(** X17: simplifying a product of Constants and unknown Variables a second
    time changes nothing. *)
Theorem Multiplication_simplify_flat_idempotent (fuel : nat) (args : list Expr)
    (r : Expr) :
  forallb (flatUnknown knowns) args = true →
  hasUnknowns knowns (Multiplication args) = true →
  (2 ≤ length args ≤ 200)%nat →
  simplify (S fuel) knowns (Multiplication args) = Ok r →
  simplify (S fuel) knowns r = Ok r.
Proof.
  intros Hflat Hunk Hlen H.
  rewrite (Multiplication_simplify_flat knowns fuel args Hflat Hunk Hlen) in H.
  destruct (flat_children knowns isMultiplication Multiplication_symbolicChildren
              Multiplication_constantChildren args
              (fun a Ha => proj2 (flatUnknown_class knowns a Ha)) Hflat)
    as [Hall [Hsum Hne]].
  specialize (Hne Hunk).
  cbn [Multiplication_symbolicChildren Multiplication_constantChildren] in H.
  set (P := fold_left nmul _ (Num 1)) in *.
  set (R := symbolicChildren_loop _ _ args) in *.
  set (C := constantChildren_loop _ _ args) in *.
  cbv zeta in H. injection H as <-.
  assert (Hsame : ∀ a, flatUnknown knowns a = true → isMultiplication a = false)
    by (intros a Ha; apply (flatUnknown_class knowns a Ha)).
  destruct (strict_eq P (Num 0)) eqn:HP0; [reflexivity |].
  destruct (strict_eq P (Num 1)) eqn:HP1.
  - destruct R as [|e0 [|e1 rest]] eqn:HR; [contradiction | |].
    + inversion Hall as [|? ? [He0 _] ?]; subst.
      apply flatUnknown_simplify. exact He0.
    + rewrite <- HR in *.
      destruct (flat_residue_children isMultiplication Multiplication_symbolicChildren
                  Multiplication_constantChildren R [] Hsame Hall) as [Hsym Hcon].
      simpl in Hsym, Hcon. rewrite app_nil_r in Hsym, Hcon.
      rewrite Multiplication_simplify_flat.
      * cbn [Multiplication_symbolicChildren Multiplication_constantChildren].
        rewrite Hsym, Hcon. simpl. rewrite HR. reflexivity.
      * rewrite <- (app_nil_r R). apply (flat_residue_flat R []). exact Hall.
      * simpl. rewrite <- (app_nil_r R). apply flat_residue_unknown; assumption.
      * subst R. rewrite HR in Hsum. rewrite HR. simpl in *. lia.
  - destruct (flat_residue_children isMultiplication Multiplication_symbolicChildren
                Multiplication_constantChildren R [P] Hsame Hall) as [Hsym Hcon].
    simpl in Hsym, Hcon.
    assert (HC : (length R < length args)%nat).
    { destruct C as [|c C'] eqn:HCeq; [| simpl in Hsum; lia].
      subst P. simpl in HP1. discriminate. }
    rewrite Multiplication_simplify_flat.
    + cbn [Multiplication_symbolicChildren Multiplication_constantChildren].
      rewrite Hsym, Hcon. cbn [fold_left]. rewrite nmul_1_l. cbv zeta.
      rewrite HP0, HP1. reflexivity.
    + apply (flat_residue_flat R [P]). exact Hall.
    + simpl. apply flat_residue_unknown; assumption.
    + rewrite length_app. simpl.
      destruct R; [contradiction |]. simpl in *. lia.
Qed.

End FlatIdempotent.

(** The product [x * 2 * y * 3] simplifies to [x * y * 6], and that to
    itself. *)
Lemma Multiplication_simplify_flat_idempotent_witness :
  simplify 1 ∅ (Multiplication [Var "x"; Var "y"; Value (Num 6)])
  = Ok (Multiplication [Var "x"; Var "y"; Value (Num 6)]).
Proof.
  apply (Multiplication_simplify_flat_idempotent ∅ 0
           [Var "x"; Value (Num 2); Var "y"; Value (Num 3)]).
  - reflexivity.
  - reflexivity.
  - simpl. lia.
  - vm_compute. reflexivity.
Defined.

(** ** Further facts on counting, annihilation and the sum rule *)

(** X19: the counting loop of [Addition.simplify] records, for every
    expression, the number of elements of the residue structurally equal to
    it, and nothing for an expression that does not occur. *)
Theorem counting_loop_counts (exprs : list Expr) (e : Expr) :
  HashMap.get equals (countGroups exprs) e
  = if (occurrences e exprs =? 0)%nat then None
    else Some (Num (Z.of_nat (occurrences e exprs))).
Proof.
  rewrite countGroups_counts. destruct (occurrences e exprs); reflexivity.
Qed.

(** X20: for a Variable [x], known (to an integer) or unknown,
    [Multiplication([x, Constant(0)]).simplify(knowns)] is [Constant(0)]. *)
Theorem Multiplication_Variable_zero (fuel : nat) (knowns : gmap string number)
    (name : string) :
  knowns !! name ≠ Some NaN →
  simplify (S fuel) knowns (Multiplication [Var name; Value (Num 0)])
  = Ok (Value (Num 0)).
Proof. apply Multiplication_Var_zero. Qed.

(** The product [x * 0] under [x = 4]. *)
Lemma Multiplication_Variable_zero_witness :
  simplify 1 {[ "x" := Num 4 ]} (Multiplication [Var "x"; Value (Num 0)])
  = Ok (Value (Num 0)).
Proof.
  apply (Multiplication_Variable_zero 0 {[ "x" := Num 4 ]} "x").
  rewrite lookup_singleton_eq. discriminate.
Defined.

(** X21: the sum rule: when [Addition.derivative] returns, it returns the
    Addition whose i-th argument is the derivative of the i-th argument. *)
Theorem Addition_derivative_sum_rule (Value_derivative : number → string → Expr)
    (Variable_derivative : string → string → Expr) (variable : string)
    (args : list Expr) (r : Expr) :
  derivative Value_derivative Variable_derivative variable (Addition args) = Ok r →
  ∃ derivs,
    r = Addition derivs ∧
    Forall2 (fun a d => derivative Value_derivative Variable_derivative variable a = Ok d)
            args derivs.
Proof.
  intros H. simpl in H.
  destruct (mapM _ args) as [derivs| |] eqn:Hmap; simpl in H; try discriminate.
  apply new_Addition_Ok in H. exists derivs. split; [exact H |].
  apply mapM_Ok_Forall2. exact Hmap.
Qed.

(** The derivative of [x + y] when every leaf has the derivative 0. *)
Lemma Addition_derivative_sum_rule_witness :
  ∃ derivs,
    Addition [Value ZERO; Value ZERO] = Addition derivs ∧
    Forall2 (fun a d => derivative (fun _ _ => Value ZERO) (fun _ _ => Value ZERO) "x" a
                        = Ok d)
            [Var "x"; Var "y"] derivs.
Proof.
  apply (Addition_derivative_sum_rule (fun _ _ => Value ZERO) (fun _ _ => Value ZERO) "x").
  reflexivity.
Defined.

(** ** The value of a folded sum or product *)






Section FlatSound.
Variable knowns : gmap string number.
Variable env : string → number.




End FlatSound.

(** * Within the range of exact arithmetic *)

(** The numbers of the embedding add and multiply exactly.  Those of the
    program do as long as every operand and every result is an integer of
    magnitude at most [MAX_EXACT]; the properties below that state a number
    assume a bound that keeps every sum and every product met within that
    range.  The two zeros of the program's numbers, which [===] does not tell
    apart, are the one [Num 0]. *)

Section KnownBounded.
Variable knowns : gmap string number.

Lemma knownValue_sum_bounded (args : list Expr) :
  Forall (fun a => ∀ m, magnitudeOf (bound knowns) a = Num m →
                        ∃ z, knownValue knowns a = Num z ∧ Z.abs z ≤ m) args →
  ∀ am az M, Z.abs az ≤ am →
    fold_left nadd (map (magnitudeOf (bound knowns)) args) (Num am) = Num M →
    ∃ z, fold_left nadd (map (knownValue knowns) args) (Num az) = Num z ∧ Z.abs z ≤ M.
Proof.
  induction 1 as [|a args Ha Hargs IH]; intros am az M Hacc H; simpl in H.
  - injection H as <-. exists az. split; [reflexivity | exact Hacc].
  - destruct (magnitudeOf (bound knowns) a) as [ma|] eqn:Hma.
    + destruct (Ha ma eq_refl) as [za [Hza Hle]]. simpl. rewrite Hza. simpl.
      apply (IH (am + ma) (az + za) M); [lia | exact H].
    + simpl in H. rewrite fold_left_NaN in H by reflexivity. discriminate.
Qed.

Lemma knownValue_product_zero (args : list Expr) :
  Forall (fun a => ∀ m, magnitudeOf (bound knowns) a = Num m →
                        ∃ z, knownValue knowns a = Num z ∧ Z.abs z ≤ m) args →
  ∀ am M, 1 ≤ am →
    fold_left nmul (map (fun a => nmax1 (magnitudeOf (bound knowns) a)) args) (Num am)
      = Num M →
    fold_left nmul (map (knownValue knowns) args) (Num 0) = Num 0 ∧ 1 ≤ M.
Proof.
  induction 1 as [|a args Ha Hargs IH]; intros am M Hacc H; simpl in H.
  - injection H as <-. split; [reflexivity | exact Hacc].
  - destruct (magnitudeOf (bound knowns) a) as [ma|] eqn:Hma.
    + destruct (Ha ma eq_refl) as [za [Hza Hle]]. simpl. rewrite Hza. simpl.
      apply (IH (am * Z.max 1 ma) M); [nia | exact H].
    + simpl in H. rewrite fold_left_NaN in H by reflexivity. discriminate.
Qed.

(** The number of the evaluation is within the bound of the expression. *)
Lemma knownValue_bounded (e : Expr) (m : Z) :
  magnitudeOf (bound knowns) e = Num m →
  ∃ z, knownValue knowns e = Num z ∧ Z.abs z ≤ m.
Proof.
  revert m. induction e as [v | name | args IH | args IH] using Expr_nested_ind;
    intros m H; simpl in H.
  - destruct v as [z|]; [| discriminate]. injection H as <-.
    exists z. split; [reflexivity | lia].
  - unfold bound in *. simpl. destruct (asNumber (knowns !! name)) as [z|];
      [| discriminate]. injection H as <-. exists z. split; [reflexivity | lia].
  - simpl. apply (knownValue_sum_bounded args IH 0 0 m); [lia | exact H].
  - simpl. destruct (knownValue_product_zero args IH 1 m) as [-> Hm]; [lia | exact H |].
    exists 0. split; [reflexivity | lia].
Qed.
End KnownBounded.

Lemma withinExact_Num (a : number) :
  withinExact a = true → ∃ m, a = Num m ∧ m ≤ MAX_EXACT.
Proof.
  destruct a as [m|]; [| discriminate]. simpl. intros H.
  apply Z.leb_le in H. exists m. split; [reflexivity | lia].
Qed.

(** X7: a well-formed expression in which every variable is known, and whose
    evaluation stays within the range of exact arithmetic, simplifies to one
    Constant, an integer within that range: the bound value for a variable,
    the sum of the arguments for an Addition, and for a Multiplication the
    arguments multiplied into the seed 0 of its evaluation loop. *)
Theorem simplify_known_exact (knowns : gmap string number) (e : Expr) (fuel : nat) :
  wellFormed e = true → hasUnknowns knowns e = false →
  withinExact (magnitudeOf (bound knowns) e) = true → (depth e ≤ fuel)%nat →
  ∃ z, knownValue knowns e = Num z ∧ Z.abs z ≤ MAX_EXACT ∧
       simplify fuel knowns e = Ok (Value (Num z)).
Proof.
  intros Hwf Hunk Hexact Hfuel.
  destruct (withinExact_Num _ Hexact) as [m [Hm Hle]].
  destruct (knownValue_bounded knowns e m Hm) as [z [Hz Hzm]].
  exists z. split; [exact Hz |]. split; [lia |].
  rewrite <- Hz. apply simplify_known_value; assumption.
Qed.

(** The sum [x + (y + 1)] under [x = 4], [y = 2]. *)
Lemma simplify_known_exact_witness :
  let knowns : gmap string number := <["x" := Num 4]> (<["y" := Num 2]> ∅) in
  let e := Addition [Var "x"; Addition [Var "y"; Value (Num 1)]] in
  ∃ z, knownValue knowns e = Num z ∧ Z.abs z ≤ MAX_EXACT ∧
       simplify 2 knowns e = Ok (Value (Num z)).
Proof.
  intros knowns e. apply (simplify_known_exact knowns e 2).
  - reflexivity.
  - vm_compute. reflexivity.
  - vm_compute. reflexivity.
  - simpl. lia.
Defined.

(** X8: sums are evaluated correctly within the range of exact arithmetic: a
    well-formed expression without Multiplications in which every variable is
    known, and whose evaluation stays within the range, simplifies to the
    Constant of its value under the bindings. *)
Theorem simplify_known_sum_exact (knowns : gmap string number) (env : string → number)
    (e : Expr) (fuel : nat) :
  wellFormed e = true → multiplicationFree e = true →
  hasUnknowns knowns e = false → agrees knowns env →
  withinExact (magnitudeOf (bound knowns) e) = true → (depth e ≤ fuel)%nat →
  ∃ z, eval env e = Num z ∧ Z.abs z ≤ MAX_EXACT ∧
       simplify fuel knowns e = Ok (Value (Num z)).
Proof.
  intros Hwf Hfree Hunk Henv Hexact Hfuel.
  destruct (withinExact_Num _ Hexact) as [m [Hm Hle]].
  destruct (knownValue_bounded knowns e m Hm) as [z [Hz Hzm]].
  exists z. rewrite <- (knownValue_eval knowns env e Henv Hfree Hunk).
  split; [exact Hz |]. split; [lia |].
  rewrite <- Hz. apply simplify_known_value; assumption.
Qed.

(** The sum [x + (x + 1)] under [x = 4], in the environment that gives 4 to
    every variable. *)
Lemma simplify_known_sum_exact_witness :
  let knowns : gmap string number := {[ "x" := Num 4 ]} in
  let env : string → number := fun _ => Num 4 in
  let e := Addition [Var "x"; Addition [Var "x"; Value (Num 1)]] in
  ∃ z, eval env e = Num z ∧ Z.abs z ≤ MAX_EXACT ∧
       simplify 2 knowns e = Ok (Value (Num z)).
Proof.
  intros knowns env e. apply (simplify_known_sum_exact knowns env e 2).
  - reflexivity.
  - reflexivity.
  - vm_compute. reflexivity.
  - intros name v Hv. unfold knowns in Hv.
    destruct (decide (name = "x")) as [-> | Hne].
    + rewrite lookup_singleton_eq in Hv. unfold env. congruence.
    + rewrite lookup_singleton_ne in Hv by congruence. discriminate.
  - vm_compute. reflexivity.
  - simpl. lia.
Defined.

(** X9: products are not: a well-formed Multiplication in which every
    variable is known, and whose factors evaluate within the range of exact
    arithmetic, simplifies to [Constant(0)] whatever its factors, because its
    evaluation loop multiplies them into 0. *)
Theorem Multiplication_known_is_zero (knowns : gmap string number) (args : list Expr)
    (fuel : nat) :
  wellFormed (Multiplication args) = true →
  hasUnknowns knowns (Multiplication args) = false →
  withinExact (magnitudeOf (bound knowns) (Multiplication args)) = true →
  (depth (Multiplication args) ≤ fuel)%nat →
  simplify fuel knowns (Multiplication args) = Ok (Value (Num 0)).
Proof.
  intros Hwf Hunk Hexact Hfuel.
  rewrite (simplify_known_value knowns _ fuel Hwf Hunk Hfuel). do 2 f_equal.
  destruct (withinExact_Num _ Hexact) as [m [Hm _]]. simpl in Hm. simpl.
  apply (knownValue_product_zero knowns args) with (am := 1) (M := m);
    [| lia | exact Hm].
  apply Forall_forall. intros a _ ma. apply knownValue_bounded.
Qed.

(** The product [(x + 1) * 5 * y] under [x = 4], [y = 2]. *)
Lemma Multiplication_known_is_zero_witness :
  simplify 2 (<["x" := Num 4]> (<["y" := Num 2]> ∅))
           (Multiplication [Addition [Var "x"; Value (Num 1)]; Value (Num 5); Var "y"])
  = Ok (Value (Num 0)).
Proof.
  apply (Multiplication_known_is_zero (<["x" := Num 4]> (<["y" := Num 2]> ∅))
           [Addition [Var "x"; Value (Num 1)]; Value (Num 5); Var "y"] 2).
  - reflexivity.
  - vm_compute. reflexivity.
  - vm_compute. reflexivity.
  - simpl. lia.
Defined.

(** ** Sums and products of bounded constants *)

Lemma absSum_from (vs : list number) :
  ∀ am az M, Z.abs az ≤ am →
    fold_left nadd (map nabs vs) (Num am) = Num M →
    ∃ n, fold_left nadd vs (Num az) = Num n ∧ Z.abs n ≤ M.
Proof.
  induction vs as [|v vs IH]; intros am az M Hacc H; simpl in H.
  - injection H as <-. exists az. split; [reflexivity | exact Hacc].
  - destruct v as [zv|]; simpl in H.
    + simpl. apply (IH (am + Z.abs zv) (az + zv) M); [lia | exact H].
    + rewrite fold_left_NaN in H by reflexivity. discriminate.
Qed.

Lemma absProduct_from (vs : list number) :
  ∀ am az M, Z.abs az ≤ am → 1 ≤ am →
    fold_left nmul (map (fun v => nmax1 (nabs v)) vs) (Num am) = Num M →
    ∃ n, fold_left nmul vs (Num az) = Num n ∧ Z.abs n ≤ M.
Proof.
  induction vs as [|v vs IH]; intros am az M Hacc Hone H; simpl in H.
  - injection H as <-. exists az. split; [reflexivity | exact Hacc].
  - destruct v as [zv|]; simpl in H.
    + simpl. apply (IH (am * Z.max 1 (Z.abs zv)) (az * zv) M); [| nia | exact H].
      rewrite Z.abs_mul. nia.
    + rewrite fold_left_NaN in H by reflexivity. discriminate.
Qed.

(** Constants whose magnitudes sum to at most [MAX_EXACT] have an integer sum
    within the range. *)
Lemma absSum_exact (vs : list number) :
  withinExact (absSum vs) = true →
  ∃ n, fold_left nadd vs (Num 0) = Num n ∧ Z.abs n ≤ MAX_EXACT.
Proof.
  intros H. destruct (withinExact_Num _ H) as [M [HM Hle]].
  destruct (absSum_from vs 0 0 M) as [n [Hn HnM]]; [lia | exact HM |].
  exists n. split; [exact Hn | lia].
Qed.

(** Constants whose magnitudes, each taken as at least 1, multiply to at most
    [MAX_EXACT] have an integer product within the range. *)
Lemma absProduct_exact (vs : list number) :
  withinExact (absProduct vs) = true →
  ∃ n, fold_left nmul vs (Num 1) = Num n ∧ Z.abs n ≤ MAX_EXACT.
Proof.
  intros H. destruct (withinExact_Num _ H) as [M [HM Hle]].
  destruct (absProduct_from vs 1 1 M) as [n [Hn HnM]]; [lia | lia | exact HM |].
  exists n. split; [exact Hn | lia].
Qed.





(** X10: a product of Constants and of unknown Variables is folded: when the
    magnitudes of the Constants (each taken as at least 1) multiply to at most
    [2^53], the Constants are multiplied into one integer [p] within that
    range and the Variables are kept in their order.  The result is
    [Constant(0)] when [p] is 0; the Variables alone when [p] is 1 (the single
    Variable itself when there is only one); otherwise the Multiplication of
    the Variables followed by [Constant(p)]. *)
Theorem Multiplication_simplify_flat_exact (knowns : gmap string number) (fuel : nat)
    (args : list Expr) :
  forallb (flatUnknown knowns) args = true →
  hasUnknowns knowns (Multiplication args) = true →
  (2 ≤ length args ≤ 200)%nat →
  withinExact (absProduct (Multiplication_constantChildren (Multiplication args))) = true →
  ∃ p, fold_left nmul (Multiplication_constantChildren (Multiplication args)) (Num 1)
       = Num p ∧
       Z.abs p ≤ MAX_EXACT ∧
       simplify (S fuel) knowns (Multiplication args)
       = let R := Multiplication_symbolicChildren (Multiplication args) in
         Ok (if p =? 0 then Value ZERO
             else if p =? 1
                  then match R with [x] => x | _ => Multiplication R end
                  else Multiplication (R ++ [Value (Num p)])).
Proof.
  intros Hflat Hunk Hlen H. destruct (absProduct_exact _ H) as [p [Hp Hle]].
  exists p. split; [exact Hp |]. split; [exact Hle |].
  rewrite (Multiplication_simplify_flat knowns fuel args Hflat Hunk Hlen), Hp.
  reflexivity.
Qed.

(** The product [x * 2 * y * 3] simplifies to [x * y * 6]. *)
Lemma Multiplication_simplify_flat_exact_witness :
  simplify 1 ∅ (Multiplication [Var "x"; Value (Num 2); Var "y"; Value (Num 3)])
  = Ok (Multiplication [Var "x"; Var "y"; Value (Num 6)]).
Proof.
  destruct (Multiplication_simplify_flat_exact ∅ 0
              [Var "x"; Value (Num 2); Var "y"; Value (Num 3)]) as [p [Hp [_ H]]].
  - reflexivity.
  - reflexivity.
  - simpl. lia.
  - vm_compute. reflexivity.
  - rewrite H. vm_compute in Hp. injection Hp as <-. reflexivity.
Defined.

(** X11: a sum of Constants and of unknown Variables that are all different
    is folded: when the magnitudes of the Constants sum to at most [2^53],
    the Constants are added into one integer [n] within that range, and the
    result is built from the Variables, in the order in which the grouping map
    lists its keys, followed by [Constant(n)] unless [n] is 0. *)
Theorem Addition_simplify_flat_exact (knowns : gmap string number) (fuel : nat)
    (args : list Expr) :
  forallb (flatUnknown knowns) args = true →
  hasUnknowns knowns (Addition args) = true →
  NoDup (Addition_symbolicChildren (Addition args)) →
  (2 ≤ length args ≤ 200)%nat →
  withinExact (absSum (Addition_constantChildren (Addition args))) = true →
  ∃ n R, fold_left nadd (Addition_constantChildren (Addition args)) (Num 0) = Num n ∧
         Z.abs n ≤ MAX_EXACT ∧
         R ≡ₚ Addition_symbolicChildren (Addition args) ∧
         simplify (S fuel) knowns (Addition args)
         = new_Addition (R ++ if n =? 0 then [] else [Value (Num n)]).
Proof.
  intros Hflat Hunk Hnd Hlen H. destruct (absSum_exact _ H) as [n [Hn Hle]].
  exists n, (Addition_symbolicChildren (Addition args)).
  split; [exact Hn |]. split; [exact Hle |]. split; [reflexivity |].
  rewrite (Addition_simplify_flat knowns fuel args Hflat Hunk Hnd Hlen), Hn.
  reflexivity.
Qed.

(** The sum [x + 2 + y + 3]: the result holds [x], [y] and then
    [Constant(5)]. *)
Lemma Addition_simplify_flat_exact_witness :
  ∃ R, R ≡ₚ [Var "x"; Var "y"] ∧
       simplify 1 ∅ (Addition [Var "x"; Value (Num 2); Var "y"; Value (Num 3)])
       = new_Addition (R ++ [Value (Num 5)]).
Proof.
  destruct (Addition_simplify_flat_exact ∅ 0
              [Var "x"; Value (Num 2); Var "y"; Value (Num 3)])
    as [n [R [Hn [_ [HR H]]]]].
  - reflexivity.
  - reflexivity.
  - simpl. repeat constructor; rewrite ?list_elem_of_In; simpl; intuition congruence.
  - simpl. lia.
  - vm_compute. reflexivity.
  - exists R. split; [exact HR |].
    rewrite H. vm_compute in Hn. injection Hn as <-. reflexivity.
Defined.

(** ** The order of the keys of the grouping map *)

(** What follows holds whatever the order in which the grouping map lists its
    keys: it is stated for every arrangement of the terms. *)








(** ** The value of a folded sum or product, within the exact range *)






